(** * garmin-workout-creator: the workout model and the regex parser

    A shallow embedding of [models/target.py], [models/step.py],
    [models/workout.py] and [parsers/regex_parser.py], together with the
    fragment of the Python runtime these modules rely on ([str] methods,
    [int], [float], and the backtracking matcher of [re]).

    Text is a list of characters; a character is a code point below 256
    (Latin-1), and the character tables below ([\s], [\d], [\w], [lower])
    are Python's tables restricted to that range.  Floating point values are
    IEEE binary64, as in CPython. *)

From Stdlib Require Import Bool Arith ZArith NArith Lia Ascii String List.
From Stdlib Require Import Floats.
Import ListNotations.

Set Warnings "-inexact-float".

Set Implicit Arguments.

(** ** Text *)

Definition str := list ascii.

Definition lit (s : string) : str := list_ascii_of_string s.
Coercion lit : string >-> str.

Open Scope string_scope.
Open Scope list_scope.

Module Py.

(** *** Characters *)

Definition code (c : ascii) : nat := nat_of_ascii c.

Definition between (lo hi : nat) (c : ascii) : bool :=
  (lo <=? code c)%nat && (code c <=? hi)%nat.

(** [str.isspace] on one character, which is also [\s] of [re] on [str]
    patterns: TAB..CR, FS..US, SPACE, NEL and NBSP. *)
Definition isspace (c : ascii) : bool :=
  between 9 13 c || between 28 32 c || (code c =? 133)%nat || (code c =? 160)%nat.

(** [\d] of [re]: the decimal digits. *)
Definition isdigit (c : ascii) : bool := between 48 57 c.

Definition isupper_ascii (c : ascii) : bool := between 65 90 c.
Definition islower_ascii (c : ascii) : bool := between 97 122 c.

(** [\w] of [re] on [str] patterns: [c.isalnum() or c == '_']. *)
Definition isword (c : ascii) : bool :=
  isdigit c || isupper_ascii c || islower_ascii c || (code c =? 95)%nat
  || (code c =? 170)%nat || (code c =? 178)%nat || (code c =? 179)%nat
  || (code c =? 181)%nat || (code c =? 185)%nat || (code c =? 186)%nat
  || between 188 190 c || between 192 214 c || between 216 246 c
  || between 248 255 c.

(** [str.lower] on one character: A-Z and the upper-case letters of Latin-1
    (U+00C0..U+00DE without the multiplication sign) move 32 places up. *)
Definition lower_char (c : ascii) : ascii :=
  if isupper_ascii c || (between 192 222 c && negb (code c =? 215)%nat)
  then ascii_of_nat (code c + 32)
  else c.

Definition lower (s : str) : str := map lower_char s.

(** *** [str.strip], [str.split], [in] *)

Fixpoint lstrip (s : str) : str :=
  match s with
  | c :: s' => if isspace c then lstrip s' else s
  | [] => []
  end.

Definition rstrip (s : str) : str := rev (lstrip (rev s)).

Definition strip (s : str) : str := rstrip (lstrip s).

(** [s.split(sep)] for a one-character separator: the pieces between the
    separators, empty pieces included; never the empty list. *)
Fixpoint split (sep : ascii) (s : str) : list str :=
  match s with
  | [] => [[]]
  | c :: s' =>
      if Ascii.eqb c sep then [] :: split sep s'
      else match split sep s' with
           | p :: ps => (c :: p) :: ps
           | [] => [[c]]
           end
  end.

Definition str_eqb (a b : str) : bool :=
  if list_eq_dec ascii_dec a b then true else false.

(** [x in [a, b, ...]] for strings. *)
Definition str_in (x : str) (l : list str) : bool := existsb (str_eqb x) l.

(** [c in s] for a character. *)
Definition contains_char (c : ascii) (s : str) : bool := existsb (Ascii.eqb c) s.

(** *** [int(s)] *)

Definition digit_val (c : ascii) : Z := Z.of_nat (code c) - 48.

(** The digits of a decimal literal, left to right; single underscores may
    separate digits. *)
Fixpoint int_digits (acc : Z) (after_digit : bool) (s : str) : option Z :=
  match s with
  | [] => if after_digit then Some acc else None
  | c :: s' =>
      if isdigit c then int_digits (10 * acc + digit_val c) true s'
      else if Ascii.eqb c "_" && after_digit
           then match s' with
                | d :: _ => if isdigit d then int_digits acc false s' else None
                | [] => None
                end
           else None
  end.

(** [int(s)]: surrounding white space is dropped, one sign is allowed, the
    rest is a decimal literal.  [None] stands for [ValueError]. *)
Definition int (s : str) : option Z :=
  match strip s with
  | "+"%char :: ds => int_digits 0 false ds
  | "-"%char :: ds => option_map Z.opp (int_digits 0 false ds)
  | ds => int_digits 0 false ds
  end.

(** *** [float(s)] on decimal literals *)

Fixpoint nat_digits (acc : Z) (s : str) : option Z :=
  match s with
  | [] => Some acc
  | c :: s' => if isdigit c then nat_digits (10 * acc + digit_val c) s' else None
  end.

(** The binary64 value nearest to [n / 10^k] (ties to even), for [0 <= n].
    The quotient is computed with at least 64 significant bits and a sticky
    bit, then rounded once. *)
Definition float_of_decimal (n : Z) (k : nat) : float :=
  let d := (10 ^ Z.of_nat k)%Z in
  let p := Z.max 0 (64 + Z.log2_up d - Z.log2 n)%Z in
  let q := (n * 2 ^ p / d)%Z in
  let r := (n * 2 ^ p mod d)%Z in
  let m := (2 * q + (if (r =? 0)%Z then 0 else 1))%Z in
  SF2Prim (binary_normalize prec emax m (- p - 1) false).

Fixpoint span_digits (s : str) : str * str :=
  match s with
  | c :: s' => if isdigit c then let (a, b) := span_digits s' in (c :: a, b)
               else ([], s)
  | [] => ([], [])
  end.

(** [float(s)] for the texts the parser passes to it, which are matches of
    [\d+(?:\.\d+)?]: digits, then optionally a point and digits.  Any other
    text is outside this model and yields [None]. *)
Definition float (s : str) : option PrimFloat.float :=
  let (ip, rest) := span_digits s in
  match ip, rest with
  | [], _ => None
  | _, [] => option_map (fun n => float_of_decimal n 0) (nat_digits 0 ip)
  | _, "."%char :: fp =>
      match fp, nat_digits 0 (ip ++ fp)%list with
      | _ :: _, Some n => Some (float_of_decimal n (length fp))
      | _, _ => None
      end
  | _, _ => None
  end.

(** *** Formatting integers: [f"{n}"] and [f"{n:02d}"] *)

Definition digit_char (d : Z) : ascii := ascii_of_nat (48 + Z.to_nat d).

Fixpoint dec_digits (fuel : nat) (n : Z) (acc : str) : str :=
  match fuel with
  | O => acc
  | S f =>
      let acc' := digit_char (n mod 10) :: acc in
      if (n <? 10)%Z then acc' else dec_digits f (n / 10) acc'
  end.

(** [str(n)] for an integer. *)
Definition str_of_int (n : Z) : str :=
  if (n <? 0)%Z
  then "-"%char :: dec_digits (S (Z.to_nat (Z.log2 (- n)))) (- n) []
  else dec_digits (S (Z.to_nat (Z.log2 n))) n [].

(** [f"{n:02d}"]: at least two characters, filled with zeros after the
    sign. *)
Definition format_02d (n : Z) : str :=
  if (n <? 0)%Z then str_of_int n
  else if (n <? 10)%Z then "0"%char :: str_of_int n
  else str_of_int n.

End Py.

(** ** The matcher of [re]

    Python's [re] is a backtracking matcher: alternatives are tried left to
    right, a greedy repetition takes as much as it can and gives back one
    item at a time, a lazy one takes as little as it can, and the first way
    to reach the end of the pattern wins.  Only the constructs used by the
    patterns of [regex_parser.py] are present; every repetition there ranges
    over a single character class. *)

Module Re.

(** Character classes. *)
Inductive cls : Type :=
| Any                      (* [.]: any character but a newline *)
| Digit                    (* [\d] *)
| Space                    (* [\s] *)
| Chr (c : ascii)          (* a literal character *)
| OneOf (l : list ascii)   (* [[...]] *)
| NoneOf (l : list ascii). (* [[^...]] *)

Inductive regex : Type :=
| Eps
| One (c : cls)
| Seq (a b : regex)
| Alt (a b : regex)
| Opt (a : regex)                                        (* [a?], greedy *)
| Rep (c : cls) (lo : nat) (hi : option nat) (greedy : bool) (* [c{lo,hi}] *)
| Grp (n : nat) (a : regex)                              (* capture group n *)
| Bol                                                    (* [^] *)
| Eol                                                    (* [$] *)
| Wordb.                                                 (* [\b] *)

(** The text of the groups that took part in the match. *)
Definition groups := list (nat * str).

Fixpoint group (n : nat) (g : groups) : option str :=
  match g with
  | [] => None
  | (m, s) :: g' => if (m =? n)%nat then Some s else group n g'
  end.

Section Matcher.

(** [re.IGNORECASE]. *)
Variable icase : bool.

Definition chr_eqb (c x : ascii) : bool :=
  if icase then Ascii.eqb (Py.lower_char x) (Py.lower_char c) else Ascii.eqb x c.

Definition cls_mem (c : cls) (x : ascii) : bool :=
  match c with
  | Any => negb (Ascii.eqb x "010")
  | Digit => Py.isdigit x
  | Space => Py.isspace x
  | Chr a => chr_eqb a x
  | OneOf l => existsb (fun a => chr_eqb a x) l
  | NoneOf l => negb (existsb (fun a => chr_eqb a x) l)
  end.

Definition is_word (c : option ascii) : bool :=
  match c with Some x => Py.isword x | None => false end.

(** A match in progress: the character before the current position, the
    text from the current position on, and the groups closed so far.  The
    continuation [k] is the rest of the pattern. *)
Definition cont (A : Type) := option ascii -> str -> groups -> option A.

Definition orelse {A} (x y : option A) : option A :=
  match x with Some _ => x | None => y end.

Definition allows (hi : option nat) : bool :=
  match hi with Some O => false | _ => true end.

Definition dec_hi (hi : option nat) : option nat := option_map pred hi.

(** [c{lo,hi}] from the current position. *)
Fixpoint rep {A} (c : cls) (greedy : bool) (s : str) (lo : nat) (hi : option nat)
    (prev : option ascii) (g : groups) (k : cont A) : option A :=
  let stop := match lo with O => k prev s g | S _ => None end in
  match s with
  | x :: s' =>
      if cls_mem c x && allows hi then
        let more := rep c greedy s' (pred lo) (dec_hi hi) (Some x) g k in
        if greedy then orelse more stop else orelse stop more
      else stop
  | [] => stop
  end.

Fixpoint run {A} (r : regex) (prev : option ascii) (s : str) (g : groups)
    (k : cont A) : option A :=
  match r with
  | Eps => k prev s g
  | One c =>
      match s with
      | x :: s' => if cls_mem c x then k (Some x) s' g else None
      | [] => None
      end
  | Seq a b => run a prev s g (fun p' s' g' => run b p' s' g' k)
  | Alt a b => orelse (run a prev s g k) (run b prev s g k)
  | Opt a => orelse (run a prev s g k) (k prev s g)
  | Rep c lo hi greedy => rep c greedy s lo hi prev g k
  | Grp n a =>
      run a prev s g
        (fun p' s' g' => k p' s' ((n, firstn (length s - length s') s) :: g'))
  | Bol => match prev with None => k prev s g | Some _ => None end
  | Eol =>
      match s with
      | [] => k prev s g
      | ["010"%char] => k prev s g
      | _ => None
      end
  | Wordb =>
      if xorb (is_word prev) (is_word (hd_error s)) then k prev s g else None
  end.

(** A successful match: how many characters it spans and its groups. *)
Definition found := (nat * groups)%type.

Definition match_at (r : regex) (prev : option ascii) (s : str) : option found :=
  run r prev s [] (fun _ s' g => Some (length s - length s', g)).

(** [re.match(r, s)]: a match starting at the first character. *)
Definition match_ (r : regex) (s : str) : option groups :=
  option_map snd (match_at r None s).

Fixpoint search_from (r : regex) (prev : option ascii) (s : str) : option groups :=
  match match_at r prev s with
  | Some (_, g) => Some g
  | None =>
      match s with
      | x :: s' => search_from r (Some x) s'
      | [] => None
      end
  end.

(** [re.search(r, s)]: the match at the leftmost position that has one. *)
Definition search (r : regex) (s : str) : option groups := search_from r None s.

(** Replacement templates: literal text and group references [\n]. *)
Inductive piece : Type :=
| Text (t : str)
| Ref (n : nat).

Definition expand (t : list piece) (g : groups) : str :=
  flat_map (fun p => match p with
                     | Text x => x
                     | Ref n => match group n g with Some x => x | None => [] end
                     end) t.

(** [re.sub(r, t, s)] for a pattern that matches no empty text: scan left
    to right, replace a match where one starts and go on after it, copy the
    character otherwise.  [skip] counts the characters of the current match
    still to pass over. *)
Fixpoint sub_from (r : regex) (t : list piece) (prev : option ascii) (s : str)
    (skip : nat) : str :=
  match s with
  | [] => []
  | x :: s' =>
      match skip with
      | S n => sub_from r t (Some x) s' n
      | O =>
          match match_at r prev s with
          | Some (S n, g) => expand t g ++ sub_from r t (Some x) s' n
          | _ => x :: sub_from r t (Some x) s' 0
          end
      end
  end.

Definition sub (r : regex) (t : list piece) (s : str) : str :=
  sub_from r t None s 0.

End Matcher.

(** Pattern builders. *)

Fixpoint text (s : str) : regex :=
  match s with
  | [] => Eps
  | [c] => One (Chr c)
  | c :: s' => Seq (One (Chr c)) (text s')
  end.

Fixpoint seq (l : list regex) : regex :=
  match l with
  | [] => Eps
  | [a] => a
  | a :: l' => Seq a (seq l')
  end.

Fixpoint alt (l : list regex) : regex :=
  match l with
  | [] => Eps
  | [a] => a
  | a :: l' => Alt a (alt l')
  end.

Definition plus (c : cls) : regex := Rep c 1 None true.
Definition star (c : cls) : regex := Rep c 0 None true.
Definition plus_lazy (c : cls) : regex := Rep c 1 None false.

End Re.

(** ** Exceptions

    Every [raise] of the embedded modules is a [ValueError] told apart by
    its message; pydantic's [ValidationError] is a [ValueError] too.  One
    constructor stands for each message. *)

Inductive error : Type :=
| PaceFormat (pace : str)
    (* Pace must be in format 'M:SS' or 'MM:SS', got: {pace} *)
| PaceColons (pace : str)
    (* Pace must have exactly one ':', got: {pace} *)
| PaceNotIntegers (pace : str)
    (* Pace minutes and seconds must be integers, got: {pace} *)
| PaceSeconds (seconds : Z)
    (* Pace seconds must be < 60, got: {seconds} *)
| ValidationError (model : string) (errors : list string)
    (* pydantic: the fields out of range, or the message of a validator *)
| UnknownDurationUnit (unit : str)
    (* Unknown duration unit: {unit} *)
| CannotParseStep (part : str)
    (* Cannot parse step: '{part}' *)
| ErrorParsingStep (part : str) (e : error)
    (* Error parsing step '{part}': {e} *)
| EmptyDescription
    (* Workout description cannot be empty *)
| NoStepsFound
    (* No workout steps found in description *)
| NotANumber (text : str).
    (* could not convert string to float / invalid literal for int() *)

Inductive result (A : Type) : Type :=
| Ok (a : A)
| Err (e : error).

Arguments Ok {A} a.
Arguments Err {A} e.

Definition bind {A B} (x : result A) (f : A -> result B) : result B :=
  match x with
  | Ok a => f a
  | Err e => Err e
  end.

Notation "'do' x <- e ; k" := (bind e (fun x => k))
  (at level 10, x name, e at level 100, k at level 200).

Definition is_ok {A} (x : result A) : bool :=
  match x with Ok _ => true | Err _ => false end.

(** ** [models/target.py] *)

Inductive TargetType : Type := PACE | HEART_RATE | CADENCE | TARGET_OPEN.

Record PaceTarget : Type := {
  min_seconds_per_km : Z;
  max_seconds_per_km : option Z
}.

Record HeartRateTarget : Type := {
  min_bpm : Z;
  max_bpm : option Z
}.

Record CadenceTarget : Type := {
  min_spm : Z;
  max_spm : option Z
}.

Definition in_range (lo hi v : Z) : bool := (lo <=? v)%Z && (v <=? hi)%Z.

(** The checks pydantic runs on a model with a required field in
    [lo..hi] and an optional second field in the same range that a field
    validator keeps at or above the first one.  The validator sees the first
    field only when that field was accepted ([info.data.get]), and skips
    the comparison when it is zero ([if min_pace and ...]). *)
Definition range_errors (lo hi : Z) (fmin fmax : string) (vmin : Z)
    (vmax : option Z) : list string :=
  let min_ok := in_range lo hi vmin in
  (if min_ok then [] else [fmin]) ++
  match vmax with
  | None => []
  | Some v =>
      if negb (in_range lo hi v) then [fmax]
      else if min_ok && negb (vmin =? 0)%Z && (v <? vmin)%Z then [fmax]
      else []
  end.

Definition PaceTarget_errors (p : PaceTarget) : list string :=
  range_errors 60 1200 "min_seconds_per_km" "max_seconds_per_km"
    (min_seconds_per_km p) (max_seconds_per_km p).

Definition HeartRateTarget_errors (h : HeartRateTarget) : list string :=
  range_errors 40 220 "min_bpm" "max_bpm" (min_bpm h) (max_bpm h).

Definition CadenceTarget_errors (c : CadenceTarget) : list string :=
  range_errors 60 220 "min_spm" "max_spm" (min_spm c) (max_spm c).

Definition checked {A} (model : string) (errors : A -> list string) (a : A)
    : result A :=
  match errors a with
  | [] => Ok a
  | es => Err (ValidationError model es)
  end.

(** The constructors [PaceTarget(...)] and [HeartRateTarget(...)]. *)
Definition new_PaceTarget (vmin : Z) (vmax : option Z) : result PaceTarget :=
  checked "PaceTarget" PaceTarget_errors
    {| min_seconds_per_km := vmin; max_seconds_per_km := vmax |}.

Definition new_HeartRateTarget (vmin : Z) (vmax : option Z)
    : result HeartRateTarget :=
  checked "HeartRateTarget" HeartRateTarget_errors
    {| min_bpm := vmin; max_bpm := vmax |}.

Module PaceTargetM.

(** [PaceTarget.from_pace_string] *)
Definition from_pace_string (pace : str) : result PaceTarget :=
  let pace := Py.strip pace in
  if negb (Py.contains_char ":" pace) then Err (PaceFormat pace)
  else
    match Py.split ":" pace with
    | [p0; p1] =>
        match Py.int p0, Py.int p1 with
        | Some minutes, Some seconds =>
            if (60 <=? seconds)%Z then Err (PaceSeconds seconds)
            else
              let total_seconds := (minutes * 60 + seconds)%Z in
              new_PaceTarget total_seconds None
        | _, _ => Err (PaceNotIntegers pace)
        end
    | _ => Err (PaceColons pace)
    end.

(** [PaceTarget.to_pace_string] *)
Definition to_pace_string (self : PaceTarget) : str :=
  let minutes := (min_seconds_per_km self / 60)%Z in
  let seconds := (min_seconds_per_km self mod 60)%Z in
  Py.str_of_int minutes ++ ":"%char :: Py.format_02d seconds.

(** [if self.max_seconds_per_km:] and the like: a value that is given and
    is not zero. *)
Definition truthy (v : option Z) : option Z :=
  match v with
  | Some n => if (n =? 0)%Z then None else Some n
  | None => None
  end.

(** [PaceTarget.to_display_string] *)
Definition to_display_string (self : PaceTarget) : str :=
  match truthy (max_seconds_per_km self) with
  | Some vmax =>
      let max_min := (vmax / 60)%Z in
      let max_sec := (vmax mod 60)%Z in
      to_pace_string self ++ "-"%char :: Py.str_of_int max_min
        ++ ":"%char :: Py.format_02d max_sec ++ lit "/km"
  | None => to_pace_string self ++ lit "/km"
  end.

End PaceTargetM.

Definition new_CadenceTarget (vmin : Z) (vmax : option Z)
    : result CadenceTarget :=
  checked "CadenceTarget" CadenceTarget_errors
    {| min_spm := vmin; max_spm := vmax |}.

Module HeartRateTargetM.

(** [HeartRateTarget.to_display_string] *)
Definition to_display_string (self : HeartRateTarget) : str :=
  match PaceTargetM.truthy (max_bpm self) with
  | Some vmax =>
      Py.str_of_int (min_bpm self) ++ "-"%char :: Py.str_of_int vmax
        ++ lit " bpm"
  | None => Py.str_of_int (min_bpm self) ++ lit " bpm"
  end.

End HeartRateTargetM.

Module CadenceTargetM.

(** [CadenceTarget.to_display_string] *)
Definition to_display_string (self : CadenceTarget) : str :=
  match PaceTargetM.truthy (max_spm self) with
  | Some vmax =>
      Py.str_of_int (min_spm self) ++ "-"%char :: Py.str_of_int vmax
        ++ lit " spm"
  | None => Py.str_of_int (min_spm self) ++ lit " spm"
  end.

End CadenceTargetM.

(** ** [models/step.py] *)

Inductive StepType : Type := WARMUP | INTERVAL | RECOVERY | COOLDOWN | REPEAT.

Inductive DurationType : Type := DISTANCE | TIME | DURATION_OPEN.

Definition StepType_eqb (a b : StepType) : bool :=
  match a, b with
  | WARMUP, WARMUP | INTERVAL, INTERVAL | RECOVERY, RECOVERY
  | COOLDOWN, COOLDOWN | REPEAT, REPEAT => true
  | _, _ => false
  end.

Definition DurationType_eqb (a b : DurationType) : bool :=
  match a, b with
  | DISTANCE, DISTANCE | TIME, TIME | DURATION_OPEN, DURATION_OPEN => true
  | _, _ => false
  end.

#[warnings="-register-all"]
Inductive WorkoutStep : Type := {
  step_type : StepType;
  duration_type : DurationType;
  duration_value : option float;
  duration_unit : option str;
  target_type : TargetType;
  pace_target : option PaceTarget;
  hr_target : option HeartRateTarget;
  cadence_target : option CadenceTarget;
  description : option str;
  repeat_count : option Z;
  repeat_steps : option (list WorkoutStep)
}.

Definition is_some {A} (x : option A) : bool :=
  match x with Some _ => true | None => false end.

Definition is_none {A} (x : option A) : bool := negb (is_some x).

Module Step.

(** The [Field] constraints: [duration_value > 0] and
    [1 <= repeat_count <= 99], each when the field is given. *)
Definition field_errors (self : WorkoutStep) : list string :=
  match duration_value self with
  | Some v => if (0 <? v)%float then [] else ["duration_value"]
  | None => []
  end ++
  match repeat_count self with
  | Some n => if in_range 1 99 n then [] else ["repeat_count"]
  | None => []
  end.

(** [validate_duration_value] *)
Definition validate_duration_value (self : WorkoutStep) : option string :=
  if negb (DurationType_eqb (duration_type self) DURATION_OPEN)
     && is_none (duration_value self)
  then Some "duration_value is required when duration_type is not OPEN"
  else if DurationType_eqb (duration_type self) DURATION_OPEN
          && is_some (duration_value self)
  then Some "duration_value must be None when duration_type is OPEN"
  else None.

(** [validate_target_consistency] *)
Definition validate_target_consistency (self : WorkoutStep) : option string :=
  let targets_set :=
    ((if is_some (pace_target self) then 1 else 0)
     + (if is_some (hr_target self) then 1 else 0)
     + (if is_some (cadence_target self) then 1 else 0))%nat in
  match target_type self with
  | TARGET_OPEN =>
      if (0 <? targets_set)%nat
      then Some "No target should be set when target_type is OPEN"
      else None
  | PACE =>
      if is_none (pace_target self)
      then Some "pace_target is required when target_type is PACE"
      else if (1 <? targets_set)%nat
      then Some "Only pace_target should be set when target_type is PACE"
      else None
  | HEART_RATE =>
      if is_none (hr_target self)
      then Some "hr_target is required when target_type is HEART_RATE"
      else if (1 <? targets_set)%nat
      then Some "Only hr_target should be set when target_type is HEART_RATE"
      else None
  | CADENCE =>
      if is_none (cadence_target self)
      then Some "cadence_target is required when target_type is CADENCE"
      else if (1 <? targets_set)%nat
      then Some "Only cadence_target should be set when target_type is CADENCE"
      else None
  end.

(** [not self.repeat_steps or len(self.repeat_steps) == 0] *)
Definition no_steps (l : option (list WorkoutStep)) : bool :=
  match l with
  | Some (_ :: _) => false
  | _ => true
  end.

(** [validate_repeat_fields] *)
Definition validate_repeat_fields (self : WorkoutStep) : option string :=
  if StepType_eqb (step_type self) REPEAT then
    if is_none (repeat_count self)
    then Some "repeat_count is required for REPEAT steps"
    else if no_steps (repeat_steps self)
    then Some "repeat_steps is required and must not be empty for REPEAT steps"
    else None
  else
    if is_some (repeat_count self)
    then Some "repeat_count should only be set for REPEAT steps"
    else if is_some (repeat_steps self)
    then Some "repeat_steps should only be set for REPEAT steps"
    else None.

(** What pydantic reports for [WorkoutStep(...)]: the fields out of range
    if there are any; otherwise the message of the first model validator
    that raises, in the order the class declares them. *)
Definition errors (self : WorkoutStep) : list string :=
  match field_errors self with
  | (_ :: _) as es => es
  | [] =>
      match validate_duration_value self with
      | Some m => [m]
      | None =>
          match validate_target_consistency self with
          | Some m => [m]
          | None =>
              match validate_repeat_fields self with
              | Some m => [m]
              | None => []
              end
          end
      end
  end.

(** The constructor [WorkoutStep(...)]; nested models arrive already
    built. *)
Definition new (self : WorkoutStep) : result WorkoutStep :=
  checked "WorkoutStep" errors self.

Definition no_errors {A} (errs : A -> list string) (x : option A) : bool :=
  match x with
  | Some a => match errs a with [] => true | _ => false end
  | None => true
  end.

(** A step that passes validation, made of parts that pass validation:
    the value of any [WorkoutStep] built through the constructors. *)
Fixpoint valid (self : WorkoutStep) : bool :=
  match errors self with [] => true | _ => false end
  && no_errors PaceTarget_errors (pace_target self)
  && no_errors HeartRateTarget_errors (hr_target self)
  && no_errors CadenceTarget_errors (cadence_target self)
  && match repeat_steps self with
     | Some l => (fix all (l : list WorkoutStep) : bool :=
                    match l with
                    | [] => true
                    | c :: l' => valid c && all l'
                    end) l
     | None => true
     end.

(** [WorkoutStep.get_duration_in_meters] *)
Definition get_duration_in_meters (self : WorkoutStep) : option float :=
  match duration_type self, duration_value self with
  | DISTANCE, Some v =>
      match duration_unit self with
      | Some u =>
          if Py.str_in u [lit "km"; lit "k"; lit "kilometers"]
          then Some (v * 1000)%float
          else if Py.str_in u [lit "m"; lit "meters"; lit "metre"]
          then Some v
          else if Py.str_in u [lit "mi"; lit "mile"; lit "miles"]
          then Some (v * 1609.34)%float
          else Some v
      | None => Some v
      end
  | _, _ => None
  end.

(** [WorkoutStep.get_duration_in_seconds] *)
Definition get_duration_in_seconds (self : WorkoutStep) : option float :=
  match duration_type self, duration_value self with
  | TIME, Some v =>
      match duration_unit self with
      | Some u =>
          if Py.str_in u [lit "min"; lit "minute"; lit "minutes"]
          then Some (v * 60)%float
          else if Py.str_in u [lit "sec"; lit "second"; lit "seconds"; lit "s"]
          then Some v
          else if Py.str_in u [lit "hr"; lit "hour"; lit "hours"; lit "h"]
          then Some (v * 3600)%float
          else Some v
      | None => Some v
      end
  | _, _ => None
  end.

End Step.

(** ** [models/workout.py] *)

Record Workout : Type := {
  name : str;
  sport_type : str;
  steps : list WorkoutStep;
  scheduled_date : option (Z * Z * Z);
  notes : option str
}.

Module WorkoutM.

(** The [Field] constraints on [name] and [notes], and [validate_steps]. *)
Definition errors (self : Workout) : list string :=
  (if (1 <=? length (name self))%nat && (length (name self) <=? 100)%nat
   then [] else ["name"]) ++
  (match steps self with [] => ["steps"] | _ => [] end) ++
  (match notes self with
   | Some n => if (length n <=? 500)%nat then [] else ["notes"]
   | None => []
   end).

(** The constructor [Workout(...)]; [validate_sport_type] stores the sport
    in lower case. *)
Definition new (self : Workout) : result Workout :=
  checked "Workout" errors
    {| name := name self;
       sport_type := Py.lower (sport_type self);
       steps := steps self;
       scheduled_date := scheduled_date self;
       notes := notes self |}.

Definition valid (self : Workout) : bool :=
  match errors self with [] => true | _ => false end
  && forallb Step.valid (steps self).

(** [int * float]: the integer is converted to the nearest binary64. *)
Definition float_of_int (n : Z) : float :=
  SF2Prim (binary_normalize prec emax n 0 false).

(** [step.repeat_count or 1] *)
Definition count_or_1 (c : option Z) : Z :=
  match c with
  | Some n => if (n =? 0)%Z then 1 else n
  | None => 1
  end.

(** [step.step_type == StepType.REPEAT and step.repeat_steps]: the children
    of a repeat step that has some. *)
Definition repeated (step : WorkoutStep) : option (list WorkoutStep) :=
  match step_type step, repeat_steps step with
  | REPEAT, Some (c :: l) => Some (c :: l)
  | _, _ => None
  end.

(** The inner loop of [get_total_distance_km]; [None] is the early
    [return None]. *)
Fixpoint repeat_distance_loop (l : list WorkoutStep) (repeat_distance : float)
    : option float :=
  match l with
  | [] => Some repeat_distance
  | repeat_step :: l' =>
      match Step.get_duration_in_meters repeat_step with
      | None => None
      | Some step_meters =>
          repeat_distance_loop l' (repeat_distance + step_meters)%float
      end
  end.

(** The outer loop of [get_total_distance_km]. *)
Fixpoint total_meters_loop (l : list WorkoutStep) (total_meters : float)
    : option float :=
  match l with
  | [] => Some total_meters
  | step :: l' =>
      match repeated step with
      | Some children =>
          match repeat_distance_loop children 0%float with
          | None => None
          | Some repeat_distance =>
              total_meters_loop l'
                (total_meters
                 + repeat_distance * float_of_int (count_or_1 (repeat_count step)))%float
          end
      | None =>
          match Step.get_duration_in_meters step with
          | None => None
          | Some step_meters =>
              total_meters_loop l' (total_meters + step_meters)%float
          end
      end
  end.

(** [Workout.get_total_distance_km] *)
Definition get_total_distance_km (self : Workout) : option float :=
  option_map (fun total_meters => (total_meters / 1000)%float)
    (total_meters_loop (steps self) 0%float).

(** The inner loop of [get_total_time_minutes]. *)
Fixpoint repeat_time_loop (l : list WorkoutStep) (repeat_time : float)
    : option float :=
  match l with
  | [] => Some repeat_time
  | repeat_step :: l' =>
      match Step.get_duration_in_seconds repeat_step with
      | None => None
      | Some step_seconds =>
          repeat_time_loop l' (repeat_time + step_seconds)%float
      end
  end.

(** The outer loop of [get_total_time_minutes]. *)
Fixpoint total_seconds_loop (l : list WorkoutStep) (total_seconds : float)
    : option float :=
  match l with
  | [] => Some total_seconds
  | step :: l' =>
      match repeated step with
      | Some children =>
          match repeat_time_loop children 0%float with
          | None => None
          | Some repeat_time =>
              total_seconds_loop l'
                (total_seconds
                 + repeat_time * float_of_int (count_or_1 (repeat_count step)))%float
          end
      | None =>
          match Step.get_duration_in_seconds step with
          | None => None
          | Some step_seconds =>
              total_seconds_loop l' (total_seconds + step_seconds)%float
          end
      end
  end.

(** [Workout.get_total_time_minutes] *)
Definition get_total_time_minutes (self : Workout) : option float :=
  option_map (fun total_seconds => (total_seconds / 60)%float)
    (total_seconds_loop (steps self) 0%float).



End WorkoutM.

(** ** [parsers/regex_parser.py] *)

Module RegexWorkoutParser.

Import Re.

Definition ch (c : ascii) : regex := One (Chr c).

(** [\d+(?:\.\d+)?] *)
Definition NUMBER : regex :=
  Seq (plus Digit) (Opt (Seq (ch ".") (plus Digit))).

(** [(?:warmup|warm\s*up|wu)] *)
Definition WARMUP_KEYWORDS : regex :=
  alt [text "warmup"; seq [text "warm"; star Space; text "up"]; text "wu"].

(** [(?:cooldown|cool\s*down|cd)] *)
Definition COOLDOWN_KEYWORDS : regex :=
  alt [text "cooldown"; seq [text "cool"; star Space; text "down"]; text "cd"].

(** [(?:interval|int|work|hard|fast|tempo|run)] *)
Definition INTERVAL_KEYWORDS : regex :=
  alt [text "interval"; text "int"; text "work"; text "hard"; text "fast";
       text "tempo"; text "run"].

(** [(?:recovery|recover|rest|easy|jog)] *)
Definition RECOVERY_KEYWORDS : regex :=
  alt [text "recovery"; text "recover"; text "rest"; text "easy"; text "jog"].

(** [(?:km|k|kilometers?|mi|miles?|m|meters?)] *)
Definition DISTANCE_UNITS : regex :=
  alt [text "km"; text "k"; Seq (text "kilometer") (Opt (ch "s")); text "mi";
       Seq (text "mile") (Opt (ch "s")); text "m";
       Seq (text "meter") (Opt (ch "s"))].

(** [(?:min|minutes?|sec|seconds?|s|hr|hours?|h)] *)
Definition TIME_UNITS : regex :=
  alt [text "min"; Seq (text "minute") (Opt (ch "s")); text "sec";
       Seq (text "second") (Opt (ch "s")); text "s"; text "hr";
       Seq (text "hour") (Opt (ch "s")); text "h"].

(** [(\d{1,2}):(\d{2})] *)
Definition PACE_PATTERN : regex :=
  seq [Grp 1 (Rep Digit 1 (Some 2) true); ch ":"; Grp 2 (Rep Digit 2 (Some 2) true)].

(** [(\d{2,3})\s*(?:bpm|beats?)] *)
Definition HR_PATTERN : regex :=
  seq [Grp 1 (Rep Digit 2 (Some 3) true); star Space;
       Alt (text "bpm") (Seq (text "beat") (Opt (ch "s")))].

(** The step-type keywords, as one alternation. *)
Definition KEYWORDS : regex :=
  alt [WARMUP_KEYWORDS; COOLDOWN_KEYWORDS; INTERVAL_KEYWORDS; RECOVERY_KEYWORDS].

(** [(?:\s+@\s+(.+?))?], the target captured as group [n]. *)
Definition TARGET (n : nat) : regex :=
  Opt (seq [plus Space; ch "@"; plus Space; Grp n (plus_lazy Any)]).

(** The patterns of [_compile_patterns]; all are compiled with
    [re.IGNORECASE]. *)

Definition simple_step_pattern : regex :=
  seq [Grp 1 NUMBER; star Space; Grp 2 (Alt DISTANCE_UNITS TIME_UNITS);
       plus Space; Grp 3 KEYWORDS; TARGET 4; Eol].

Definition target_first_pattern : regex :=
  seq [Grp 1 KEYWORDS; plus Space; Grp 2 NUMBER; star Space;
       Grp 3 (Alt DISTANCE_UNITS TIME_UNITS); TARGET 4; Eol].

Definition duration_only_pattern : regex :=
  seq [Bol; Grp 1 NUMBER; star Space; Grp 2 (Alt DISTANCE_UNITS TIME_UNITS);
       TARGET 3; Eol].

Definition interval_pattern : regex :=
  seq [Grp 1 (plus Digit); star Space; ch "x"; plus Space;
       Grp 2 NUMBER; star Space; Grp 3 (Alt DISTANCE_UNITS TIME_UNITS);
       Opt (seq [plus Space; ch "@"; plus Space;
                 Grp 4 (plus_lazy (NoneOf ["+"%char]))]);
       Opt (seq [star Space; ch "+"; star Space; Grp 5 NUMBER; star Space;
                 Grp 6 (Alt TIME_UNITS DISTANCE_UNITS); star Space;
                 Opt (alt [text "rest"; text "recovery"; text "rec";
                           text "jog"; text "easy"])]);
       Eol].

Definition open_step_pattern : regex :=
  seq [Bol; Grp 1 KEYWORDS; Eol].

(** *** [_normalize_text] *)

(** One [re.sub] of the normalizer: pattern and replacement. *)
Definition rewrite : Type := (regex * list piece)%type.

Definition word (w : regex) : regex := seq [Wordb; w; Wordb].

Definition normalize_rules : list rewrite :=
  [ (* [;,\n]+ -> , *)
    (plus (OneOf [";"; ","; "010"]%char), [Text ","]);
    (* (\d+(?:\.\d+)?)\s*k\b -> \1km *)
    (seq [Grp 1 NUMBER; star Space; ch "k"; Wordb], [Ref 1; Text "km"]);
    (* \bkms\b -> km *)
    (word (text "kms"), [Text "km"]);
    (* \bkilometers?\b -> km *)
    (word (Seq (text "kilometer") (Opt (ch "s"))), [Text "km"]);
    (* (\d+(?:\.\d+)?)\s*mins?\b -> \1min *)
    (seq [Grp 1 NUMBER; star Space; text "min"; Opt (ch "s"); Wordb],
     [Ref 1; Text "min"]);
    (* \bminutes?\b -> min *)
    (word (Seq (text "minute") (Opt (ch "s"))), [Text "min"]);
    (* (\d+(?:\.\d+)?)\s*secs?\b -> \1sec *)
    (seq [Grp 1 NUMBER; star Space; text "sec"; Opt (ch "s"); Wordb],
     [Ref 1; Text "sec"]);
    (* \bseconds?\b -> sec *)
    (word (Seq (text "second") (Opt (ch "s"))), [Text "sec"]);
    (* \bhours?\b -> hr *)
    (word (Seq (text "hour") (Opt (ch "s"))), [Text "hr"]);
    (* \s+@\s+ -> ' @ ' *)
    (seq [plus Space; ch "@"; plus Space], [Text " @ "]);
    (* \s*\+\s* -> ' + ' *)
    (seq [star Space; ch "+"; star Space], [Text " + "]) ].

Definition apply_rewrite (text : str) (rw : rewrite) : str :=
  Re.sub false (fst rw) (snd rw) text.

Definition _normalize_text (text : str) : str :=
  let text := Py.strip (Py.lower text) in
  fold_left apply_rewrite normalize_rules text.

(** *** [_split_workout] *)

(** Truth of a string or a list: it is not empty. *)
Definition nonempty {A} (s : list A) : bool :=
  match s with [] => false | _ => true end.

Definition _split_workout (text : str) : list str :=
  map Py.strip (filter (fun p => nonempty (Py.strip p)) (Py.split "," text)).

(** *** [_infer_step_type] *)

Definition found (r : regex) (text : str) : bool := is_some (Re.search true r text).

Definition _infer_step_type (text : str) : StepType :=
  let text := Py.lower text in
  if found WARMUP_KEYWORDS text then WARMUP
  else if found COOLDOWN_KEYWORDS text then COOLDOWN
  else if found RECOVERY_KEYWORDS text then RECOVERY
  else if found INTERVAL_KEYWORDS text then INTERVAL
  else INTERVAL.

(** *** [_parse_duration] *)

Definition _parse_duration (value : float) (unit : str)
    : result (DurationType * float) :=
  let unit := Py.lower unit in
  if Py.str_in unit [lit "km"; lit "k"; lit "kilometers"; lit "kilometer"]
  then Ok (DISTANCE, value)
  else if Py.str_in unit [lit "m"; lit "meters"; lit "meter"]
  then Ok (DISTANCE, value)
  else if Py.str_in unit [lit "mi"; lit "mile"; lit "miles"]
  then Ok (DISTANCE, value)
  else if Py.str_in unit [lit "min"; lit "minute"; lit "minutes"]
  then Ok (TIME, value)
  else if Py.str_in unit [lit "sec"; lit "second"; lit "seconds"; lit "s"]
  then Ok (TIME, value)
  else if Py.str_in unit [lit "hr"; lit "hour"; lit "hours"; lit "h"]
  then Ok (TIME, value)
  else Err (UnknownDurationUnit unit).

(** *** [_parse_target] *)

Definition target : Type :=
  (TargetType * option PaceTarget * option HeartRateTarget)%type.

(** A group that matched, as text; [group(n)] of a group that did not take
    part is [None], which the callers below never meet for the groups they
    convert. *)
Definition grp (n : nat) (g : groups) : str :=
  match group n g with Some s => s | None => [] end.

Definition to_int (s : str) : result Z :=
  match Py.int s with Some n => Ok n | None => Err (NotANumber s) end.

Definition to_float (s : str) : result float :=
  match Py.float s with Some v => Ok v | None => Err (NotANumber s) end.

Definition _parse_target (target_str : option str) : result target :=
  match target_str with
  | None | Some [] => Ok (TARGET_OPEN, None, None)
  | Some target_str =>
      let target_str := Py.strip target_str in
      match Re.search true HR_PATTERN target_str with
      | Some hr_match =>
          do bpm <- to_int (grp 1 hr_match);
          do hr_target <- new_HeartRateTarget bpm None;
          Ok (HEART_RATE, None, Some hr_target)
      | None =>
          match Re.search false PACE_PATTERN target_str with
          | Some pace_match =>
              do pace_target <-
                PaceTargetM.from_pace_string
                  (grp 1 pace_match ++ ":"%char :: grp 2 pace_match);
              Ok (PACE, Some pace_target, None)
          | None => Ok (TARGET_OPEN, None, None)
          end
      end
  end.

(** *** The step builders *)

(** [WorkoutStep(step_type=..., duration_type=..., target_type=...)] with
    every optional field left at its default. *)
Definition step_fields (st : StepType) (dt : DurationType) (kind : TargetType)
    : WorkoutStep :=
  {| step_type := st; duration_type := dt; duration_value := None;
     duration_unit := None; target_type := kind; pace_target := None;
     hr_target := None; cadence_target := None; description := None;
     repeat_count := None; repeat_steps := None |}.

(** A step with a measured duration and a target, as the four builders of
    leaf steps construct it. *)
Definition leaf_step (st : StepType) (dt : DurationType) (value : float)
    (unit : str) (t : target) : result WorkoutStep :=
  let '(kind, pace, hr) := t in
  Step.new
    {| step_type := st; duration_type := dt; duration_value := Some value;
       duration_unit := Some unit; target_type := kind; pace_target := pace;
       hr_target := hr; cadence_target := None; description := None;
       repeat_count := None; repeat_steps := None |}.

Definition _parse_interval_step (m : groups) : result WorkoutStep :=
  do repeat_count <- to_int (grp 1 m);
  do work_value <- to_float (grp 2 m);
  let work_unit := grp 3 m in
  let target_str := group 4 m in
  let recovery_value := group 5 m in
  let recovery_unit := grp 6 m in
  do d <- _parse_duration work_value work_unit;
  do t <- _parse_target target_str;
  do work_step <- leaf_step INTERVAL (fst d) (snd d) work_unit t;
  do repeat_steps <-
    match recovery_value with
    | Some ((_ :: _) as recovery_value) =>
        do v <- to_float recovery_value;
        do rd <- _parse_duration v recovery_unit;
        do recovery_step <-
          leaf_step RECOVERY (fst rd) (snd rd) recovery_unit
            (TARGET_OPEN, None, None);
        Ok [work_step; recovery_step]
    | _ => Ok [work_step]
    end;
  Step.new
    {| step_type := REPEAT; duration_type := DURATION_OPEN;
       duration_value := None; duration_unit := None;
       target_type := TARGET_OPEN; pace_target := None; hr_target := None;
       cadence_target := None; description := None;
       repeat_count := Some repeat_count; repeat_steps := Some repeat_steps |}.

Definition _parse_simple_step (m : groups) : result WorkoutStep :=
  do value <- to_float (grp 1 m);
  let unit := grp 2 m in
  let step_type_str := grp 3 m in
  let target_str := group 4 m in
  let step_type := _infer_step_type step_type_str in
  do d <- _parse_duration value unit;
  do t <- _parse_target target_str;
  leaf_step step_type (fst d) (snd d) unit t.

Definition _parse_target_first_step (m : groups) : result WorkoutStep :=
  let step_type_str := grp 1 m in
  do value <- to_float (grp 2 m);
  let unit := grp 3 m in
  let target_str := group 4 m in
  let step_type := _infer_step_type step_type_str in
  do d <- _parse_duration value unit;
  do t <- _parse_target target_str;
  leaf_step step_type (fst d) (snd d) unit t.

Definition _parse_open_step (m : groups) : result WorkoutStep :=
  let step_type_str := grp 1 m in
  let step_type := _infer_step_type step_type_str in
  Step.new (step_fields step_type DURATION_OPEN TARGET_OPEN).

Definition _parse_duration_only_step (m : groups) : result WorkoutStep :=
  do value <- to_float (grp 1 m);
  let unit := grp 2 m in
  let target_str := group 3 m in
  let step_type := INTERVAL in
  do d <- _parse_duration value unit;
  do t <- _parse_target target_str;
  leaf_step step_type (fst d) (snd d) unit t.

(** *** [_parse_step] *)

Definition _parse_step (part : str) (index : nat) : result WorkoutStep :=
  match Re.match_ true interval_pattern part with
  | Some m => _parse_interval_step m
  | None =>
  match Re.match_ true simple_step_pattern part with
  | Some m => _parse_simple_step m
  | None =>
  match Re.match_ true target_first_pattern part with
  | Some m => _parse_target_first_step m
  | None =>
  match Re.match_ true duration_only_pattern part with
  | Some m => _parse_duration_only_step m
  | None =>
  match Re.match_ true open_step_pattern part with
  | Some m => _parse_open_step m
  | None => Err (CannotParseStep part)
  end end end end end.

(** *** [parse] *)

(** The loop over [enumerate(parts)]: the first part that fails ends the
    parse, its error wrapped with the text of the part. *)
Fixpoint parse_parts (parts : list str) (i : nat) : result (list WorkoutStep) :=
  match parts with
  | [] => Ok []
  | part :: rest =>
      match _parse_step part i with
      | Ok step =>
          do steps <- parse_parts rest (S i);
          Ok (step :: steps)
      | Err e => Err (ErrorParsingStep part e)
      end
  end.

Definition parse (text : str) : result Workout :=
  if negb (nonempty text) || negb (nonempty (Py.strip text))
  then Err EmptyDescription
  else
    let normalized := _normalize_text text in
    let parts := _split_workout normalized in
    if negb (nonempty parts) then Err NoStepsFound
    else
      do steps <- parse_parts parts 0;
      WorkoutM.new
        {| name := "Untitled Workout"; sport_type := "running";
           steps := steps; scheduled_date := None; notes := None |}.

(** *** [_can_parse_part], [can_parse] *)

Definition matches (r : regex) (part : str) : bool :=
  is_some (Re.match_ true r part).

Definition _can_parse_part (part : str) : bool :=
  if matches interval_pattern part then true
  else if matches simple_step_pattern part then true
  else if matches target_first_pattern part then true
  else if matches duration_only_pattern part then true
  else if matches open_step_pattern part then true
  else false.

Definition can_parse (text : str) : bool :=
  if negb (nonempty text) || negb (nonempty (Py.strip text)) then false
  else
    let normalized := _normalize_text text in
    let parts := _split_workout normalized in
    forallb _can_parse_part parts.

End RegexWorkoutParser.

(** * Properties *)

Unset Implicit Arguments.

(** ** Unit conversion ([models/step.py]) *)

Section Conversions.

Import Step.

(** The unit spellings the two conversion tables list. *)
Definition distance_table : list str :=
  [lit "km"; lit "k"; lit "kilometers"; lit "m"; lit "meters"; lit "metre";
   lit "mi"; lit "mile"; lit "miles"].

Definition time_table : list str :=
  [lit "min"; lit "minute"; lit "minutes"; lit "sec"; lit "second";
   lit "seconds"; lit "s"; lit "hr"; lit "hour"; lit "hours"; lit "h"].

(** The unit of a step is one of the spellings of a table. *)
Definition listed (table : list str) (self : WorkoutStep) : bool :=
  match duration_unit self with
  | Some u => Py.str_in u table
  | None => false
  end.

Lemma str_in_app (x : str) (l1 l2 : list str) :
  Py.str_in x (l1 ++ l2) = Py.str_in x l1 || Py.str_in x l2.
Proof. unfold Py.str_in. apply existsb_app. Qed.

Lemma meters_unlisted (self : WorkoutStep) :
  listed distance_table self = false ->
  get_duration_in_meters self =
  match duration_type self with DISTANCE => duration_value self | _ => None end.
Proof.
  unfold listed, get_duration_in_meters. intros H.
  destruct (duration_type self); try reflexivity.
  destruct (duration_value self) as [v|]; [|reflexivity].
  destruct (duration_unit self) as [u|]; [|reflexivity].
  change distance_table
    with ([lit "km"; lit "k"; lit "kilometers"]
          ++ [lit "m"; lit "meters"; lit "metre"]
          ++ [lit "mi"; lit "mile"; lit "miles"]) in H.
  rewrite !str_in_app in H.
  apply orb_false_iff in H as [H1 H]. apply orb_false_iff in H as [H2 H3].
  now rewrite H1, H2, H3.
Qed.

Lemma seconds_unlisted (self : WorkoutStep) :
  listed time_table self = false ->
  get_duration_in_seconds self =
  match duration_type self with TIME => duration_value self | _ => None end.
Proof.
  unfold listed, get_duration_in_seconds. intros H.
  destruct (duration_type self); try reflexivity.
  destruct (duration_value self) as [v|]; [|reflexivity].
  destruct (duration_unit self) as [u|]; [|reflexivity].
  change time_table
    with ([lit "min"; lit "minute"; lit "minutes"]
          ++ [lit "sec"; lit "second"; lit "seconds"; lit "s"]
          ++ [lit "hr"; lit "hour"; lit "hours"; lit "h"]) in H.
  rewrite !str_in_app in H.
  apply orb_false_iff in H as [H1 H]. apply orb_false_iff in H as [H2 H3].
  now rewrite H1, H2, H3.
Qed.

(** C10.  A Distance step [d] whose unit is not a spelling of the distance
    table converts to meters as its [duration_value], unchanged, and a Time
    step [t] whose unit is not a spelling of the time table converts to
    seconds as its [duration_value], unchanged.  Both helpers are total
    functions: there is no unit on which they raise. *)
Theorem conversion_of_unlisted_unit (d t : WorkoutStep)
    (Hd : duration_type d = DISTANCE)
    (Hdu : listed distance_table d = false)
    (Ht : duration_type t = TIME)
    (Htu : listed time_table t = false) :
  get_duration_in_meters d = duration_value d /\
  get_duration_in_seconds t = duration_value t.
Proof.
  split.
  - rewrite (meters_unlisted d Hdu). now rewrite Hd.
  - rewrite (seconds_unlisted t Htu). now rewrite Ht.
Qed.

(** "2 kilometer" (singular) and "3 fortnight". *)
Definition two_kilometer : WorkoutStep :=
  {| step_type := INTERVAL; duration_type := DISTANCE;
     duration_value := Some 2%float; duration_unit := Some (lit "kilometer");
     target_type := TARGET_OPEN; pace_target := None; hr_target := None;
     cadence_target := None; description := None; repeat_count := None;
     repeat_steps := None |}.

Definition three_fortnight : WorkoutStep :=
  {| step_type := INTERVAL; duration_type := TIME;
     duration_value := Some 3%float; duration_unit := Some (lit "fortnight");
     target_type := TARGET_OPEN; pace_target := None; hr_target := None;
     cadence_target := None; description := None; repeat_count := None;
     repeat_steps := None |}.

Lemma conversion_of_unlisted_unit_witness :
  get_duration_in_meters two_kilometer = Some 2%float /\
  get_duration_in_seconds three_fortnight = Some 3%float.
Proof.
  apply (conversion_of_unlisted_unit two_kilometer three_fortnight);
    reflexivity.
Defined.

End Conversions.

(** ** Validated steps ([models/step.py]) *)

Section ValidSteps.

Import Step.

(** The child steps of a step; none when [repeat_steps] is [None]. *)
Definition children (self : WorkoutStep) : list WorkoutStep :=
  match repeat_steps self with Some l => l | None => [] end.

Definition is_repeat (self : WorkoutStep) : bool :=
  StepType_eqb (step_type self) REPEAT.

Lemma StepType_eqb_eq (a b : StepType) : StepType_eqb a b = true <-> a = b.
Proof. destruct a, b; simpl; split; congruence. Qed.

Lemma is_repeat_true (self : WorkoutStep) :
  is_repeat self = true <-> step_type self = REPEAT.
Proof. apply StepType_eqb_eq. Qed.

Lemma is_repeat_false (self : WorkoutStep) :
  is_repeat self = false <-> step_type self <> REPEAT.
Proof.
  unfold is_repeat. destruct (step_type self); simpl; split; congruence.
Qed.

Lemma valid_unfold (self : WorkoutStep) :
  valid self =
  match errors self with [] => true | _ => false end
  && no_errors PaceTarget_errors (pace_target self)
  && no_errors HeartRateTarget_errors (hr_target self)
  && no_errors CadenceTarget_errors (cadence_target self)
  && forallb valid (children self).
Proof.
  destruct self as [st dt dv du tt pt ht ct de rc rs]; simpl.
  unfold children; simpl. f_equal.
  destruct rs as [l|]; [|reflexivity].
  induction l as [|c l IH]; simpl; [reflexivity|now rewrite IH].
Qed.

(** What [errors self = []] says, validator by validator. *)
Lemma errors_nil (self : WorkoutStep) :
  errors self = [] ->
  field_errors self = [] /\ validate_duration_value self = None /\
  validate_target_consistency self = None /\ validate_repeat_fields self = None.
Proof.
  unfold errors.
  destruct (field_errors self); [|discriminate].
  destruct (validate_duration_value self); [discriminate|].
  destruct (validate_target_consistency self); [discriminate|].
  destruct (validate_repeat_fields self); [discriminate|].
  auto.
Qed.

Lemma valid_errors (self : WorkoutStep) :
  valid self = true -> errors self = [].
Proof.
  rewrite valid_unfold. intros H.
  repeat (apply andb_true_iff in H as [H _]).
  now destruct (errors self).
Qed.

Lemma valid_children (self c : WorkoutStep) :
  valid self = true -> In c (children self) -> valid c = true.
Proof.
  rewrite valid_unfold. intros H Hc.
  apply andb_true_iff in H as [_ H].
  rewrite forallb_forall in H. now apply H.
Qed.

(** A validated step has a magnitude exactly when its duration is not
    Open. *)
Lemma valid_duration (self : WorkoutStep) :
  valid self = true ->
  match duration_type self with
  | DURATION_OPEN => duration_value self = None
  | _ => exists v, duration_value self = Some v
  end.
Proof.
  intros H. apply valid_errors, errors_nil in H as (_ & H & _).
  unfold validate_duration_value in H.
  destruct (duration_type self), (duration_value self) as [v|];
    simpl in H; try discriminate; eauto.
Qed.

Lemma valid_meters (self : WorkoutStep) :
  valid self = true ->
  (is_some (get_duration_in_meters self) = true <-> duration_type self = DISTANCE).
Proof.
  intros H. apply valid_duration in H.
  unfold get_duration_in_meters.
  destruct (duration_type self).
  - destruct H as [v ->].
    destruct (duration_unit self) as [u|]; [|now split].
    repeat match goal with |- context [if ?b then _ else _] => destruct b end;
      now split.
  - split; [|discriminate]. intros H'; simpl in H'. discriminate.
  - split; [|discriminate]. intros H'; simpl in H'. discriminate.
Qed.

Lemma valid_repeat_fields (self : WorkoutStep) :
  valid self = true ->
  if is_repeat self
  then (exists n, repeat_count self = Some n /\ (1 <= n <= 99)%Z) /\
       (exists c l, repeat_steps self = Some (c :: l))
  else repeat_count self = None /\ repeat_steps self = None.
Proof.
  intros H. apply valid_errors, errors_nil in H as (Hf & _ & _ & H).
  unfold validate_repeat_fields in H. unfold is_repeat.
  destruct (StepType_eqb (step_type self) REPEAT).
  - unfold field_errors in Hf. apply app_eq_nil in Hf as [_ Hf].
    destruct (repeat_count self) as [n|]; simpl in H; [|discriminate].
    destruct (repeat_steps self) as [[|c l]|]; simpl in H; try discriminate.
    split; [|eauto]. exists n; split; [reflexivity|].
    unfold in_range in Hf.
    destruct (1 <=? n)%Z eqn:E1, (n <=? 99)%Z eqn:E2; simpl in Hf;
      try discriminate.
    apply Z.leb_le in E1, E2. lia.
  - destruct (repeat_count self); simpl in H; [discriminate|].
    destruct (repeat_steps self); simpl in H; [discriminate|]. auto.
Qed.

End ValidSteps.

(** ** Total distance ([models/workout.py]) *)

Section TotalDistance.

Import Step.

(** The leaf steps of a workout, in order: each top-level step that is not
    a Repeat, and each child of a Repeat. *)
Definition leaf_steps (w : Workout) : list WorkoutStep :=
  flat_map (fun s => if is_repeat s then children s else [s]) (steps w).

Definition is_distance (self : WorkoutStep) : bool :=
  DurationType_eqb (duration_type self) DISTANCE.

(** The distance in meters of a step that has one. *)
Definition meters (self : WorkoutStep) : float :=
  match get_duration_in_meters self with Some m => m | None => 0%float end.

(** A sum of binary64 values, taken left to right from zero. *)
Definition fsum (l : list float) : float := fold_left PrimFloat.add l 0%float.

Definition times (self : WorkoutStep) : Z :=
  match repeat_count self with Some n => n | None => 0%Z end.

(** What a top-level step adds to the total: a Repeat adds the sum of its
    children's distances, [repeat_count] times; any other step adds its own
    distance. *)
Definition step_distance (self : WorkoutStep) : float :=
  if is_repeat self
  then (fsum (map meters (children self)) * WorkoutM.float_of_int (times self))%float
  else meters self.

(** The total the specification describes, in kilometers. *)
Definition sum_of_distances_km (w : Workout) : float :=
  (fsum (map step_distance (steps w)) / 1000)%float.

Lemma is_distance_true (self : WorkoutStep) :
  is_distance self = true <-> duration_type self = DISTANCE.
Proof. unfold is_distance. destruct (duration_type self); simpl; split; congruence. Qed.

Lemma valid_meters_value (self : WorkoutStep) :
  valid self = true ->
  get_duration_in_meters self =
  if is_distance self then Some (meters self) else None.
Proof.
  intros H. pose proof (valid_meters self H) as [H1 H2].
  unfold meters. destruct (is_distance self) eqn:E.
  - apply is_distance_true in E. specialize (H2 E).
    now destruct (get_duration_in_meters self).
  - destruct (get_duration_in_meters self); [|reflexivity].
    specialize (H1 eq_refl). apply is_distance_true in H1. congruence.
Qed.

(** The inner loop: all or nothing over the children. *)
Lemma repeat_distance_loop_eq (l : list WorkoutStep) :
  forallb valid l = true ->
  forall acc,
  WorkoutM.repeat_distance_loop l acc =
  if forallb is_distance l
  then Some (fold_left PrimFloat.add (map meters l) acc) else None.
Proof.
  induction l as [|c l IH]; simpl; intros Hv acc; [reflexivity|].
  apply andb_true_iff in Hv as [Hc Hl].
  rewrite (valid_meters_value c Hc).
  destruct (is_distance c); simpl; [|reflexivity].
  now apply IH.
Qed.

Lemma valid_repeated (self : WorkoutStep) :
  valid self = true ->
  WorkoutM.repeated self = if is_repeat self then Some (children self) else None.
Proof.
  intros H. pose proof (valid_repeat_fields self H) as Hr.
  unfold WorkoutM.repeated, children. destruct (is_repeat self) eqn:E.
  - apply is_repeat_true in E. rewrite E.
    destruct Hr as [_ (c & l & ->)]. reflexivity.
  - apply is_repeat_false in E.
    destruct (step_type self); try reflexivity. congruence.
Qed.

Lemma valid_count (self : WorkoutStep) :
  valid self = true -> is_repeat self = true ->
  WorkoutM.count_or_1 (repeat_count self) = times self.
Proof.
  intros H E. pose proof (valid_repeat_fields self H) as Hr.
  rewrite E in Hr. destruct Hr as [(n & Hn & Hrange) _].
  unfold WorkoutM.count_or_1, times. rewrite Hn.
  destruct (Z.eqb_spec n 0); [lia|reflexivity].
Qed.

(** The outer loop: all or nothing over the leaf steps. *)
Lemma total_meters_loop_eq (l : list WorkoutStep) :
  forallb valid l = true ->
  forall acc,
  WorkoutM.total_meters_loop l acc =
  if forallb is_distance
       (flat_map (fun s => if is_repeat s then children s else [s]) l)
  then Some (fold_left PrimFloat.add (map step_distance l) acc) else None.
Proof.
  induction l as [|s l IH]; simpl; intros Hv acc; [reflexivity|].
  apply andb_true_iff in Hv as [Hs Hl].
  rewrite forallb_app, (valid_repeated s Hs).
  unfold step_distance.
  destruct (is_repeat s) eqn:E.
  - assert (Hc : forallb valid (children s) = true).
    { apply forallb_forall. intros c Hc. exact (valid_children s c Hs Hc). }
    rewrite (repeat_distance_loop_eq _ Hc), (valid_count s Hs E).
    destruct (forallb is_distance (children s)); simpl; [|reflexivity].
    now apply IH.
  - rewrite (valid_meters_value s Hs). simpl.
    destruct (is_distance s); simpl; [|reflexivity].
    now apply IH.
Qed.

Lemma get_total_distance_km_eq (w : Workout) :
  WorkoutM.valid w = true ->
  WorkoutM.get_total_distance_km w =
  if forallb is_distance (leaf_steps w)
  then Some (sum_of_distances_km w) else None.
Proof.
  intros H. apply andb_true_iff in H as [_ H].
  unfold WorkoutM.get_total_distance_km, leaf_steps, sum_of_distances_km, fsum.
  rewrite (total_meters_loop_eq _ H).
  now destruct (forallb is_distance _).
Qed.


End TotalDistance.

Section Examples.

Import Step.

(** Steps as the tests of the repository build them. *)
Definition distance_step (st : StepType) (v : float) (u : string) : WorkoutStep :=
  {| step_type := st; duration_type := DISTANCE; duration_value := Some v;
     duration_unit := Some (lit u); target_type := TARGET_OPEN;
     pace_target := None; hr_target := None; cadence_target := None;
     description := None; repeat_count := None; repeat_steps := None |}.

Definition time_step (st : StepType) (v : float) (u : string) : WorkoutStep :=
  {| step_type := st; duration_type := TIME; duration_value := Some v;
     duration_unit := Some (lit u); target_type := TARGET_OPEN;
     pace_target := None; hr_target := None; cadence_target := None;
     description := None; repeat_count := None; repeat_steps := None |}.

Definition repeat_step (n : Z) (l : list WorkoutStep) : WorkoutStep :=
  {| step_type := REPEAT; duration_type := DURATION_OPEN;
     duration_value := None; duration_unit := None;
     target_type := TARGET_OPEN; pace_target := None; hr_target := None;
     cadence_target := None; description := None; repeat_count := Some n;
     repeat_steps := Some l |}.

Definition workout_of (l : list WorkoutStep) : Workout :=
  {| name := "Untitled Workout"; sport_type := "running"; steps := l;
     scheduled_date := None; notes := None |}.

(** 1 km warm-up, then 3 x (1 km + 400 m): 5.2 km. *)
Definition distance_workout : Workout :=
  workout_of [distance_step WARMUP 1 "km";
              repeat_step 3 [distance_step INTERVAL 1 "km";
                             distance_step RECOVERY 400 "m"]].

(** The scenario of the specification: 1 km, then 5 min. *)
Definition mixed_workout : Workout :=
  workout_of [distance_step WARMUP 1 "km"; time_step INTERVAL 5 "min"].

(** A Repeat whose only child is a Repeat. *)
Definition nested_repeat : WorkoutStep :=
  repeat_step 2 [repeat_step 2 [distance_step INTERVAL 1 "km"]].

End Examples.


Example distance_workout_km :
  WorkoutM.get_total_distance_km distance_workout = Some 5.2%float.
Proof. reflexivity. Qed.

Example mixed_workout_undefined :
  WorkoutM.valid mixed_workout = true /\
  WorkoutM.get_total_distance_km mixed_workout = None.
Proof. split; reflexivity. Qed.

(** ** Repeat fields ([validate_repeat_fields]) *)

(** C3, as the code has it.  A step that passes validation, if it is a
    Repeat, has a [repeat_count] between 1 and 99 and at least one child
    step, and every child passes validation in its turn; if it is not a
    Repeat, it has neither a [repeat_count] nor child steps.  (Nothing is
    said of the kind of the children: see [nested_repeat_is_valid].) *)
Theorem validated_repeat_fields (self : WorkoutStep)
    (Hv : Step.valid self = true) :
  (step_type self = REPEAT ->
   (exists n, repeat_count self = Some n /\ (1 <= n <= 99)%Z) /\
   children self <> [] /\
   (forall c, In c (children self) -> Step.valid c = true)) /\
  (step_type self <> REPEAT ->
   repeat_count self = None /\ repeat_steps self = None).
Proof.
  pose proof (valid_repeat_fields self Hv) as H.
  split; intros Hk.
  - apply is_repeat_true in Hk. rewrite Hk in H.
    destruct H as [Hn (c & l & Hs)].
    split; [exact Hn|]. split.
    + unfold children. rewrite Hs. discriminate.
    + intros c' Hc'. exact (valid_children self c' Hv Hc').
  - apply is_repeat_false in Hk. now rewrite Hk in H.
Qed.

Lemma validated_repeat_fields_witness :
  Step.valid nested_repeat = true /\
  (exists n, repeat_count nested_repeat = Some n /\ (1 <= n <= 99)%Z) /\
  children nested_repeat <> [].
Proof.
  split; [reflexivity|].
  destruct (validated_repeat_fields nested_repeat eq_refl) as [H _].
  destruct (H eq_refl) as (Hn & Hc & _). now split.
Defined.

(** C3, as stated, fails: the constructor accepts a Repeat step whose
    child is a Repeat step, so a validated Repeat can have a Repeat among
    its children. *)
Lemma nested_repeat_is_valid :
  Step.new nested_repeat = Ok nested_repeat /\
  Step.valid nested_repeat = true /\
  step_type nested_repeat = REPEAT /\
  ~ (forall c, In c (children nested_repeat) -> step_type c <> REPEAT).
Proof.
  repeat split.
  intros H. apply (H (repeat_step 2 [distance_step INTERVAL 1 "km"])).
  - left. reflexivity.
  - reflexivity.
Qed.

(** ** Text lemmas *)

Section TextLemmas.

Import Py.

Lemma lstrip_keep (c : ascii) (s : str) :
  isspace c = false -> lstrip (c :: s) = c :: s.
Proof. intros H; simpl; now rewrite H. Qed.

Lemma rstrip_keep (s : str) (c : ascii) :
  isspace c = false -> rstrip (s ++ [c]) = s ++ [c].
Proof.
  intros H. unfold rstrip. rewrite rev_app_distr; simpl.
  rewrite H; simpl. now rewrite rev_involutive.
Qed.

(** Text that neither starts nor ends with white space is its own
    [strip]. *)
Lemma strip_keep (c d : ascii) (s : str) :
  isspace c = false -> isspace d = false ->
  strip (c :: s ++ [d]) = c :: s ++ [d].
Proof.
  intros Hc Hd. unfold strip. rewrite (lstrip_keep _ _ Hc).
  change (c :: s ++ [d]) with ((c :: s) ++ [d]). now apply rstrip_keep.
Qed.

Lemma strip_nil : strip [] = [].
Proof. reflexivity. Qed.

Lemma split_no_sep (sep : ascii) (s : str) :
  contains_char sep s = false -> split sep s = [s].
Proof.
  induction s as [|c s IH]; simpl; [reflexivity|].
  intros H. apply orb_false_iff in H as [Hc Hs].
  rewrite Ascii.eqb_sym, Hc, (IH Hs). reflexivity.
Qed.

Lemma split_at_sep (sep : ascii) (a b : str) :
  contains_char sep a = false ->
  split sep (a ++ sep :: b) = a :: split sep b.
Proof.
  induction a as [|c a IH]; simpl.
  - intros _. now rewrite Ascii.eqb_refl.
  - intros H. apply orb_false_iff in H as [Hc Ha].
    rewrite Ascii.eqb_sym, Hc, (IH Ha). reflexivity.
Qed.

Lemma contains_char_app (c : ascii) (a b : str) :
  contains_char c (a ++ b) = contains_char c a || contains_char c b.
Proof. apply existsb_app. Qed.

(** The ten decimal digits. *)
Lemma isdigit_cases (c : ascii) :
  isdigit c = true ->
  In c ["0"; "1"; "2"; "3"; "4"; "5"; "6"; "7"; "8"; "9"]%char.
Proof.
  destruct c as [[] [] [] [] [] [] [] []]; intros H;
    try discriminate H; simpl; tauto.
Qed.

Lemma digit_not_space (c : ascii) : isdigit c = true -> isspace c = false.
Proof.
  intros H. apply isdigit_cases in H. simpl in H.
  repeat (destruct H as [<-|H]; [reflexivity|]). contradiction.
Qed.

Lemma digits_without (x : ascii) (s : str) :
  isdigit x = false -> forallb isdigit s = true -> contains_char x s = false.
Proof.
  intros Hx. induction s as [|c s IH]; simpl; [reflexivity|].
  intros H. apply andb_true_iff in H as [Hc Hs]. rewrite (IH Hs).
  destruct (Ascii.eqb_spec x c) as [->|]; [congruence|reflexivity].
Qed.

(** The number a string of digits denotes. *)
Definition value_from (acc : Z) (s : str) : Z :=
  fold_left (fun a c => (10 * a + digit_val c)%Z) s acc.

Definition value (s : str) : Z := value_from 0 s.

Lemma int_digits_value (s : str) :
  forallb isdigit s = true ->
  forall acc b, (b = true \/ s <> []) ->
  int_digits acc b s = Some (value_from acc s).
Proof.
  induction s as [|c s IH]; simpl; intros H acc b Hb.
  - destruct Hb as [->|Hb]; [reflexivity|congruence].
  - apply andb_true_iff in H as [Hc Hs]. rewrite Hc.
    apply IH; auto.
Qed.

(** [int] on a non-empty string of digits. *)
Lemma int_of_digits (c : ascii) (s : str) :
  forallb isdigit (c :: s) = true -> int (c :: s) = Some (value (c :: s)).
Proof.
  intros H. unfold int.
  assert (Hstrip : strip (c :: s) = c :: s).
  { pose proof H as H'. simpl in H'. apply andb_true_iff in H' as [Hc Hs].
    destruct (rev s) as [|d r] eqn:E.
    - apply (f_equal (@rev ascii)) in E. rewrite rev_involutive in E.
      subst s. unfold strip. rewrite (lstrip_keep _ _ (digit_not_space _ Hc)).
      apply (rstrip_keep [] c), digit_not_space, Hc.
    - apply (f_equal (@rev ascii)) in E. rewrite rev_involutive in E.
      simpl in E. subst s. apply strip_keep.
      + now apply digit_not_space.
      + rewrite forallb_app in Hs. apply andb_true_iff in Hs as [_ Hd].
        simpl in Hd. apply andb_true_iff in Hd as [Hd _].
        now apply digit_not_space. }
  rewrite Hstrip.
  assert (Hv : int_digits 0 false (c :: s) = Some (value (c :: s))).
  { apply int_digits_value; [exact H|right; discriminate]. }
  simpl in H. apply andb_true_iff in H as [Hc _].
  apply isdigit_cases in Hc. simpl in Hc.
  repeat (destruct Hc as [<-|Hc]; [exact Hv|]). contradiction.
Qed.

End TextLemmas.

(** ** Pace strings ([models/target.py]) *)

Section PaceStrings.

Import Py PaceTargetM.

(** The text [M:SS]. *)
Definition pace_text (m ss : str) : str := m ++ ":"%char :: ss.

(** [m] is one or two digits and [ss] is two digits. *)
Definition pace_form (m ss : str) : bool :=
  forallb isdigit m && ((length m =? 1)%nat || (length m =? 2)%nat)
  && forallb isdigit ss && (length ss =? 2)%nat.

(** Minutes without a leading zero. *)
Definition unpad (m : str) : str :=
  match m with
  | ["0"%char; d] => [d]
  | _ => m
  end.

Lemma pace_form_inv (m ss : str) :
  pace_form m ss = true ->
  (exists c, m = [c] /\ isdigit c = true \/
   exists d, m = [c; d] /\ isdigit c = true /\ isdigit d = true) /\
  exists a b, ss = [a; b] /\ isdigit a = true /\ isdigit b = true.
Proof.
  unfold pace_form. intros H.
  apply andb_true_iff in H as [H Hl2]. apply andb_true_iff in H as [H Hss].
  apply andb_true_iff in H as [Hm Hl1]. split.
  - destruct m as [|c [|d [|e m]]]; try discriminate Hl1; simpl in Hm.
    + exists c. left. now rewrite andb_true_r in Hm.
    + exists c. right. exists d. rewrite andb_true_r in Hm.
      apply andb_true_iff in Hm. tauto.
  - destruct ss as [|a [|b [|e ss]]]; try discriminate Hl2; simpl in Hss.
    exists a, b. rewrite andb_true_r in Hss. apply andb_true_iff in Hss. tauto.
Qed.

Ltac each_digit H :=
  apply isdigit_cases in H; simpl in H;
  repeat (destruct H as [<-|H]; [|]); [..|contradiction].

Lemma str_of_int_minutes (m : str) :
  forallb isdigit m = true ->
  ((length m =? 1)%nat || (length m =? 2)%nat) = true ->
  str_of_int (value m) = unpad m.
Proof.
  intros Hm Hl.
  destruct m as [|c [|d [|e m]]]; try discriminate Hl; simpl in Hm.
  - rewrite andb_true_r in Hm. each_digit Hm; reflexivity.
  - rewrite andb_true_r in Hm. apply andb_true_iff in Hm as [Hc Hd].
    each_digit Hc; each_digit Hd; reflexivity.
Qed.

Lemma format_02d_seconds (a b : ascii) :
  isdigit a = true -> isdigit b = true -> format_02d (value [a; b]) = [a; b].
Proof. intros Ha Hb. each_digit Ha; each_digit Hb; reflexivity. Qed.

Lemma value_from_nonneg (s : str) :
  forallb isdigit s = true -> forall acc, (0 <= acc -> 0 <= value_from acc s)%Z.
Proof.
  induction s as [|c s IH]; intros H acc Hacc; [exact Hacc|].
  simpl in H. apply andb_true_iff in H as [Hc Hs].
  change (value_from acc (c :: s))
    with (value_from (10 * acc + digit_val c) s).
  apply IH; [exact Hs|].
  assert (0 <= digit_val c)%Z; [|lia].
  each_digit Hc; vm_compute; discriminate.
Qed.

Lemma strip_pace_text (m ss : str) :
  pace_form m ss = true -> strip (pace_text m ss) = pace_text m ss.
Proof.
  intros H. apply pace_form_inv in H as [(c & Hm) (a & b & -> & Ha & Hb)].
  unfold pace_text.
  destruct Hm as [(-> & Hc)|(d & -> & Hc & Hd)].
  - apply (strip_keep c b [":"%char; a]); now apply digit_not_space.
  - apply (strip_keep c b [d; ":"%char; a]); now apply digit_not_space.
Qed.

Lemma split_pace_text (m ss : str) :
  forallb isdigit m = true -> forallb isdigit ss = true ->
  split ":" (pace_text m ss) = [m; ss].
Proof.
  intros Hm Hss. unfold pace_text.
  rewrite split_at_sep, split_no_sep; auto using digits_without.
Qed.

Lemma pace_seconds_div (m s : Z) :
  (0 <= s < 60)%Z -> ((m * 60 + s) / 60 = m /\ (m * 60 + s) mod 60 = s)%Z.
Proof.
  intros H. split.
  - rewrite Z.add_comm, Z.div_add by lia. rewrite Z.div_small; lia.
  - rewrite Z.add_comm, Z.mod_add by lia. apply Z.mod_small; lia.
Qed.

Lemma from_pace_string_form (m ss : str) :
  pace_form m ss = true ->
  from_pace_string (pace_text m ss) =
  if (60 <=? value ss)%Z then Err (PaceSeconds (value ss))
  else new_PaceTarget (value m * 60 + value ss) None.
Proof.
  intros H. unfold from_pace_string. rewrite (strip_pace_text m ss H).
  pose proof H as Hf. unfold pace_form in Hf.
  apply andb_true_iff in Hf as [Hf Hl2]. apply andb_true_iff in Hf as [Hf Hss].
  apply andb_true_iff in Hf as [Hm Hl1].
  assert (Hcolon : contains_char ":" (pace_text m ss) = true).
  { unfold pace_text. rewrite contains_char_app. simpl. apply orb_true_r. }
  rewrite Hcolon, (split_pace_text m ss Hm Hss). simpl.
  destruct m as [|c m]; [discriminate Hl1|].
  destruct ss as [|a ss]; [discriminate Hl2|].
  now rewrite (int_of_digits c m Hm), (int_of_digits a ss Hss).
Qed.

(** C2, within the range the constructor accepts.  Let [s] be [M:SS] or
    [MM:SS] with [SS < 60] and a pace between 1:00 and 20:00, that is
    [60 <= M*60+SS <= 1200].  Then [from_pace_string s] succeeds with
    [min_seconds_per_km = M*60+SS] and no maximum, and [to_pace_string]
    of the result is [s] with the minutes written without a leading
    zero. *)
Theorem pace_round_trip (m ss : str)
    (Hform : pace_form m ss = true)
    (Hsec : (value ss < 60)%Z)
    (Hrange : (60 <= value m * 60 + value ss <= 1200)%Z) :
  let p := {| min_seconds_per_km := (value m * 60 + value ss)%Z;
              max_seconds_per_km := None |} in
  from_pace_string (pace_text m ss) = Ok p /\
  to_pace_string p = pace_text (unpad m) ss.
Proof.
  intros p. split.
  - rewrite (from_pace_string_form m ss Hform).
    destruct (Z.leb_spec 60 (value ss)) as [Hge|_]; [lia|].
    unfold new_PaceTarget, checked, PaceTarget_errors, range_errors, in_range.
    simpl.
    destruct (Z.leb_spec 60 (value m * 60 + value ss)); [|lia].
    destruct (Z.leb_spec (value m * 60 + value ss) 1200); [|lia].
    reflexivity.
  - pose proof Hform as Hf. unfold pace_form in Hf.
    apply andb_true_iff in Hf as [Hf Hl2]. apply andb_true_iff in Hf as [Hf Hss].
    apply andb_true_iff in Hf as [Hm Hl1].
    assert (H0 : (0 <= value ss)%Z).
    { apply value_from_nonneg; [exact Hss|lia]. }
    destruct (pace_seconds_div (value m) (value ss)) as [Hdiv Hmod]; [lia|].
    unfold to_pace_string, p, pace_text. simpl min_seconds_per_km.
    rewrite Hdiv, Hmod, (str_of_int_minutes m Hm Hl1). f_equal. f_equal.
    destruct (pace_form_inv m ss Hform) as [_ (a & b & -> & Ha & Hb)].
    now apply format_02d_seconds.
Qed.

Lemma pace_round_trip_witness :
  from_pace_string "5:30"
  = Ok {| min_seconds_per_km := 330; max_seconds_per_km := None |} /\
  to_pace_string {| min_seconds_per_km := 330; max_seconds_per_km := None |}
  = lit "5:30".
Proof.
  apply (pace_round_trip (lit "5") (lit "30")).
  - reflexivity.
  - vm_compute. reflexivity.
  - vm_compute. split; discriminate.
Defined.

(** C2, as stated, fails: "0:30" has the form [M:SS] with [SS < 60], and
    [from_pace_string] raises on it, because the constructor rejects a pace
    under 60 seconds per kilometer. *)
Lemma pace_under_a_minute_rejected :
  pace_form (lit "0") (lit "30") = true /\
  (value (lit "30") < 60)%Z /\
  from_pace_string (pace_text (lit "0") (lit "30"))
  = Err (ValidationError "PaceTarget" ["min_seconds_per_km"]).
Proof. repeat split. Qed.

End PaceStrings.

(** ** Segments and input errors ([_split_workout], [parse]) *)

Section Segments.

Import Py RegexWorkoutParser.

Lemma split_workout_trim_then_drop (text : str) :
  _split_workout text = filter nonempty (map strip (split "," text)).
Proof.
  unfold _split_workout. induction (split "," text) as [|p l IH]; simpl.
  - reflexivity.
  - destruct (nonempty (strip p)); simpl; now rewrite IH.
Qed.

(** A failing part surfaces as [ErrorParsingStep], never as one of the two
    input errors. *)
Lemma parse_parts_error (parts : list str) :
  forall i e, parse_parts parts i = Err e ->
  exists part e', e = ErrorParsingStep part e'.
Proof.
  induction parts as [|part rest IH]; simpl; intros i e H; [discriminate|].
  destruct (_parse_step part i) as [step|e0].
  - destruct (parse_parts rest (S i)) as [l|e1] eqn:E; simpl in H;
      [discriminate|].
    injection H as <-. exact (IH _ _ E).
  - injection H as <-. eauto.
Qed.

Lemma nonempty_false {A} (l : list A) : nonempty l = false <-> l = [].
Proof. destruct l; simpl; split; congruence. Qed.

Lemma input_not_blank (text : str) :
  strip text <> [] ->
  negb (nonempty text) || negb (nonempty (strip text)) = false.
Proof.
  intros H. destruct text as [|c text]; [now elim H|].
  destruct (strip (c :: text)); [now elim H|reflexivity].
Qed.

(** What [parse] does before it looks at any segment. *)
Lemma parse_input_errors (text : str) :
  (strip text = [] -> parse text = Err EmptyDescription) /\
  (strip text <> [] -> _split_workout (_normalize_text text) = [] ->
   parse text = Err NoStepsFound) /\
  (strip text <> [] -> _split_workout (_normalize_text text) <> [] ->
   parse text <> Err EmptyDescription /\ parse text <> Err NoStepsFound).
Proof.
  unfold parse. split; [|split].
  - intros H. rewrite H.
    change (negb (nonempty (@nil ascii))) with true.
    now rewrite orb_true_r.
  - intros H1 H2. rewrite (input_not_blank text H1), H2. reflexivity.
  - intros H1 H2. rewrite (input_not_blank text H1).
    destruct (_split_workout (_normalize_text text)) as [|p ps];
      [now elim H2|].
    change (negb (nonempty (p :: ps))) with false. cbv iota.
    destruct (parse_parts (p :: ps) 0) as [l|e] eqn:E; unfold bind.
    + unfold WorkoutM.new, checked.
      destruct (WorkoutM.errors _); split; discriminate.
    + apply parse_parts_error in E as (part & e' & ->). split; discriminate.
Qed.

(** C8.  [_split_workout] splits on ",", trims every piece and drops the
    empty ones, so that "a, b,, c" gives "a", "b", "c".  [parse] fails with
    the empty-input error exactly when the trimmed input is empty, and with
    the no-steps error exactly when the input is not empty and its
    normalized text has no non-empty segment. *)
Theorem segmentation_and_input_errors :
  (forall text,
     _split_workout text = filter nonempty (map strip (split "," text))) /\
  map string_of_list_ascii (_split_workout "a, b,, c") = ["a"; "b"; "c"] /\
  (forall text, parse text = Err EmptyDescription <-> strip text = []) /\
  (forall text,
     parse text = Err NoStepsFound <->
     strip text <> [] /\ _split_workout (_normalize_text text) = []).
Proof.
  split; [exact split_workout_trim_then_drop|].
  split; [vm_compute; reflexivity|].
  split; intros text; destruct (parse_input_errors text) as (He & Hn & Ho).
  - split; [|exact He]. intros H.
    destruct (list_eq_dec ascii_dec (strip text) []) as [E|E]; [exact E|].
    destruct (list_eq_dec (list_eq_dec ascii_dec)
                (_split_workout (_normalize_text text)) []) as [E'|E'].
    + rewrite (Hn E E') in H. discriminate.
    + now destruct (Ho E E').
  - split.
    + intros H.
      destruct (list_eq_dec ascii_dec (strip text) []) as [E|E].
      { rewrite (He E) in H. discriminate. }
      split; [exact E|].
      destruct (list_eq_dec (list_eq_dec ascii_dec)
                  (_split_workout (_normalize_text text)) []) as [E'|E'];
        [exact E'|]. now destruct (Ho E E').
    + intros [E E']. exact (Hn E E').
Qed.

Example only_separators : parse ";; ," = Err NoStepsFound.
Proof. vm_compute. reflexivity. Qed.

Example only_blanks : parse "   " = Err EmptyDescription.
Proof. vm_compute. reflexivity. Qed.

End Segments.

(** ** Rule order ([_parse_step]) *)

Section RuleOrder.

Import RegexWorkoutParser.

(** A grammar rule: a pattern and the builder for its matches. *)
Definition rule : Type := (Re.regex * (Re.groups -> result WorkoutStep))%type.

(** The five rules, in the order of precedence. *)
Definition rules : list rule :=
  [ (interval_pattern, _parse_interval_step);
    (simple_step_pattern, _parse_simple_step);
    (target_first_pattern, _parse_target_first_step);
    (duration_only_pattern, _parse_duration_only_step);
    (open_step_pattern, _parse_open_step) ].

(** The first rule of a list whose pattern matches the segment, with the
    match. *)
Fixpoint first_match (l : list rule) (part : str)
    : option ((Re.groups -> result WorkoutStep) * Re.groups) :=
  match l with
  | [] => None
  | (pattern, build) :: l' =>
      match Re.match_ true pattern part with
      | Some m => Some (build, m)
      | None => first_match l' part
      end
  end.

(** C4.  [_parse_step] tries the interval, simple, target-first,
    duration-only and bare step-type rules in this order and builds the
    step from the first one that matches; a segment that none of the five
    matches fails with the cannot-parse error, which carries the segment. *)
Theorem parse_step_first_match (part : str) (index : nat) :
  _parse_step part index =
  match first_match rules part with
  | Some (build, m) => build m
  | None => Err (CannotParseStep part)
  end.
Proof.
  unfold _parse_step, rules, first_match.
  destruct (Re.match_ true interval_pattern part); [reflexivity|].
  destruct (Re.match_ true simple_step_pattern part); [reflexivity|].
  destruct (Re.match_ true target_first_pattern part); [reflexivity|].
  destruct (Re.match_ true duration_only_pattern part); [reflexivity|].
  destruct (Re.match_ true open_step_pattern part); reflexivity.
Qed.

Example gobbledygook_unparsable :
  first_match rules "gobbledygook" = None /\
  _parse_step "gobbledygook" 0 = Err (CannotParseStep "gobbledygook").
Proof. split; vm_compute; reflexivity. Qed.

End RuleOrder.

(** ** The matcher: success is kept when text is added on the right *)

Section MatcherLemmas.

Import Re.

Variable icase : bool.

(** Patterns without [^], [$] and [\b]: what they match depends on the
    characters they consume only. *)
Fixpoint anchor_free (r : regex) : bool :=
  match r with
  | Eps | One _ | Rep _ _ _ _ => true
  | Seq a b | Alt a b => anchor_free a && anchor_free b
  | Opt a | Grp _ a => anchor_free a
  | Bol | Eol | Wordb => false
  end.

(** [k'] succeeds, with [e] added after the text, wherever [k] does. *)
Definition follows (e : str) {A B} (k : cont A) (k' : cont B) : Prop :=
  forall p s g p' g', k p s g <> None -> k' p' (s ++ e) g' <> None.

Lemma orelse_some {A} (x y : option A) :
  orelse x y <> None <-> x <> None \/ y <> None.
Proof. destruct x, y; simpl; split; intros H; try tauto; try (left; discriminate); try (right; discriminate); destruct H; congruence. Qed.

Lemma rep_stop {A} (c : cls) (greedy : bool) (s : str) (hi : option nat)
    (p : option ascii) (g : groups) (k : cont A) :
  k p s g <> None -> rep icase c greedy s 0 hi p g k <> None.
Proof.
  intros H. destruct s as [|x s]; simpl; [exact H|].
  destruct (cls_mem icase c x && allows hi); [|exact H].
  destruct greedy; apply orelse_some; auto.
Qed.

Lemma rep_follows {A B} (e : str) (c : cls) (greedy : bool)
    (k : cont A) (k' : cont B) :
  follows e k k' ->
  forall s lo hi p g p' g',
  rep icase c greedy s lo hi p g k <> None ->
  rep icase c greedy (s ++ e) lo hi p' g' k' <> None.
Proof.
  intros Hk. induction s as [|x s IH]; intros lo hi p g p' g' H.
  - simpl in H. destruct lo; [|congruence].
    apply rep_stop. exact (Hk _ _ _ _ _ H).
  - simpl in H. simpl app. simpl rep.
    destruct (cls_mem icase c x && allows hi).
    + assert (Hcase : rep icase c greedy s (pred lo) (dec_hi hi) (Some x) g k <> None
                      \/ match lo with O => k p (x :: s) g | S _ => None end <> None).
      { destruct greedy; apply orelse_some in H; tauto. }
      assert (Hgoal : rep icase c greedy (s ++ e) (pred lo) (dec_hi hi) (Some x) g' k' <> None
                      \/ match lo with O => k' p' (x :: s ++ e) g' | S _ => None end <> None).
      { destruct Hcase as [H1|H1].
        - left. exact (IH _ _ _ _ _ _ H1).
        - right. destruct lo; [|congruence]. exact (Hk _ (x :: s) _ _ _ H1). }
      destruct greedy; apply orelse_some; tauto.
    + destruct lo; [|congruence]. exact (Hk _ (x :: s) _ _ _ H).
Qed.

Lemma run_follows (e : str) (r : regex) :
  anchor_free r = true ->
  forall A B (k : cont A) (k' : cont B),
  follows e k k' ->
  follows e (fun p s g => run icase r p s g k) (fun p s g => run icase r p s g k').
Proof.
  induction r; simpl; intros Hr A B k k' Hk p s g p' g' H;
    try discriminate Hr.
  - exact (Hk _ _ _ _ _ H).
  - destruct s as [|x s]; [congruence|]. simpl.
    destruct (cls_mem icase c x); [|congruence]. exact (Hk _ _ _ _ _ H).
  - apply andb_true_iff in Hr as [Ha Hb].
    exact (IHr1 Ha _ _ _ _ (IHr2 Hb _ _ _ _ Hk) _ _ _ _ _ H).
  - apply andb_true_iff in Hr as [Ha Hb].
    apply orelse_some in H. apply orelse_some. destruct H as [H|H].
    + left. exact (IHr1 Ha _ _ _ _ Hk _ _ _ _ _ H).
    + right. exact (IHr2 Hb _ _ _ _ Hk _ _ _ _ _ H).
  - apply orelse_some in H. apply orelse_some. destruct H as [H|H].
    + left. exact (IHr Hr _ _ _ _ Hk _ _ _ _ _ H).
    + right. exact (Hk _ _ _ _ _ H).
  - exact (rep_follows e c greedy k k' Hk _ _ _ _ _ _ _ H).
  - refine (IHr Hr _ _ _ _ _ _ _ _ _ _ H).
    intros q t h q' h' H'. exact (Hk _ _ _ _ _ H').
Qed.

Lemma match_at_follows (e : str) (r : regex) (p p' : option ascii) (s : str) :
  anchor_free r = true ->
  match_at icase r p s <> None -> match_at icase r p' (s ++ e) <> None.
Proof.
  intros Hr. unfold match_at.
  apply (run_follows e r Hr _ _ _ _). intros q t h q' h' _. discriminate.
Qed.

Lemma search_from_some (r : regex) (p : option ascii) (s : str) :
  search_from icase r p s <> None <->
  match_at icase r p s <> None \/
  match s with x :: s' => search_from icase r (Some x) s' <> None | [] => False end.
Proof.
  destruct s as [|x s]; simpl; destruct (match_at icase r p _) as [[n g]|];
    split; intros H; try tauto; try (left; discriminate);
    destruct H as [H|H]; congruence || tauto.
Qed.

(** A match found in a text is found in any text that contains it. *)
Lemma search_from_inside (r : regex) (w e : str) :
  anchor_free r = true ->
  forall s p p',
  search_from icase r p s <> None ->
  search_from icase r p' (w ++ s ++ e) <> None.
Proof.
  intros Hr.
  assert (Hright : forall s p p', search_from icase r p s <> None ->
                                  search_from icase r p' (s ++ e) <> None).
  { induction s as [|x s IH]; intros p p' H; apply search_from_some in H;
      apply search_from_some.
    - left. destruct H as [H|[]]. exact (match_at_follows e r p p' [] Hr H).
    - destruct H as [H|H].
      + left. exact (match_at_follows e r p p' (x :: s) Hr H).
      + right. exact (IH _ _ H). }
  induction w as [|x w IH]; intros s p p' H.
  - exact (Hright _ _ _ H).
  - simpl app. apply search_from_some. right. exact (IH _ _ _ H).
Qed.

End MatcherLemmas.

(** ** Unrecognized target clauses ([_parse_target]) *)

Section OpenFallback.

Import Py RegexWorkoutParser.

Lemma lstrip_decompose (s : str) : exists w, s = w ++ lstrip s.
Proof.
  induction s as [|c s [w IH]]; [now exists []|]. simpl.
  destruct (isspace c).
  - exists (c :: w). simpl. now rewrite <- IH.
  - now exists [].
Qed.

Lemma rstrip_decompose (s : str) : exists w, s = rstrip s ++ w.
Proof.
  destruct (lstrip_decompose (rev s)) as [w H].
  exists (rev w). unfold rstrip.
  rewrite <- rev_app_distr, <- H. symmetry. apply rev_involutive.
Qed.

(** [strip] removes a prefix and a suffix. *)
Lemma strip_decompose (s : str) : exists w e, s = w ++ strip s ++ e.
Proof.
  destruct (lstrip_decompose s) as [w Hw].
  destruct (rstrip_decompose (lstrip s)) as [e He].
  exists w, e. unfold strip. now rewrite <- He.
Qed.

(** A pattern without anchors that is not found in a text is not found in
    the trimmed text. *)
Lemma search_strip_none (icase : bool) (r : Re.regex) (s : str) :
  anchor_free r = true ->
  Re.search icase r s = None -> Re.search icase r (strip s) = None.
Proof.
  intros Hr H. destruct (strip_decompose s) as (w & e & Hs).
  destruct (Re.search icase r (strip s)) as [g|] eqn:E; [|reflexivity].
  exfalso. unfold Re.search in *.
  assert (Hin : Re.search_from icase r None (w ++ strip s ++ e) <> None).
  { apply (search_from_inside icase r w e Hr (strip s) None None).
    rewrite E. discriminate. }
  rewrite <- Hs in Hin. contradiction.
Qed.

(** C6.  A target clause that is not empty and in which neither the
    heart-rate pattern nor the pace pattern is found resolves to the Open
    target, without a payload and without an error. *)
Theorem unrecognized_target_is_open (clause : str)
    (Hne : clause <> [])
    (Hhr : Re.search true HR_PATTERN clause = None)
    (Hpace : Re.search false PACE_PATTERN clause = None) :
  _parse_target (Some clause) = Ok (TARGET_OPEN, None, None).
Proof.
  destruct clause as [|c clause]; [now elim Hne|].
  unfold _parse_target.
  rewrite (search_strip_none true HR_PATTERN (c :: clause) eq_refl Hhr).
  now rewrite (search_strip_none false PACE_PATTERN (c :: clause) eq_refl Hpace).
Qed.

(** The clause "5k30", a mistyped pace. *)
Lemma unrecognized_target_is_open_witness :
  _parse_target (Some (lit "5k30")) = Ok (TARGET_OPEN, None, None).
Proof.
  apply unrecognized_target_is_open.
  - discriminate.
  - vm_compute. reflexivity.
  - vm_compute. reflexivity.
Defined.

End OpenFallback.

(** ** Equations of the matcher *)

Section MatcherEquations.

Import Py Re.

Lemma sub_len2 (n : nat) : S (S n) - n = 2. Proof. lia. Qed.
Lemma sub_len1 (n : nat) : S n - n = 1. Proof. lia. Qed.

Local Arguments Nat.sub : simpl nomatch.

Lemma orelse_none_r {A} (x : option A) : orelse x None = x.
Proof. now destruct x. Qed.

Lemma rep_done {A} (ic : bool) (c : cls) (gr : bool) (s : str) (lo : nat)
    (p : option ascii) (g : groups) (k : cont A) :
  rep ic c gr s lo (Some 0) p g k
  = match lo with O => k p s g | S _ => None end.
Proof. destruct s; simpl; [|rewrite andb_false_r]; reflexivity. Qed.

(** [\d{2}] *)
Lemma rep_two_digits {A} (ic : bool) (s : str) (p : option ascii)
    (g : groups) (k : cont A) :
  rep ic Digit true s 2 (Some 2) p g k
  = match s with
    | a :: b :: r => if isdigit a && isdigit b then k (Some b) r g else None
    | _ => None
    end.
Proof.
  destruct s as [|a [|b r]]; simpl; try reflexivity.
  - now destruct (isdigit a).
  - destruct (isdigit a); simpl; [|reflexivity].
    destruct (isdigit b); simpl; [|reflexivity].
    now rewrite rep_done, !orelse_none_r.
Qed.

(** [\d{1,2}], greedy: two digits first, then one. *)
Lemma rep_one_or_two_digits {A} (ic : bool) (s : str) (p : option ascii)
    (g : groups) (k : cont A) :
  rep ic Digit true s 1 (Some 2) p g k
  = match s with
    | a :: r =>
        if isdigit a then
          match r with
          | b :: r' =>
              if isdigit b then orelse (k (Some b) r' g) (k (Some a) r g)
              else k (Some a) r g
          | [] => k (Some a) r g
          end
        else None
    | [] => None
    end.
Proof.
  destruct s as [|a [|b r]]; simpl; try reflexivity.
  - destruct (isdigit a); simpl; [|reflexivity]. now rewrite orelse_none_r.
  - destruct (isdigit a); simpl; [|reflexivity].
    destruct (isdigit b); simpl; rewrite ?rep_done, orelse_none_r; reflexivity.
Qed.

Lemma take1 (a : ascii) (r : str) :
  firstn (length (a :: r) - length r) (a :: r) = [a].
Proof. simpl length. now rewrite sub_len1. Qed.

Lemma take2 (a b : ascii) (r : str) :
  firstn (length (a :: b :: r) - length r) (a :: b :: r) = [a; b].
Proof. simpl length. now rewrite sub_len2. Qed.

Lemma sub_len3 (n : nat) : S (S (S n)) - n = 3. Proof. lia. Qed.

Lemma take3 (a b c : ascii) (r : str) :
  firstn (length (a :: b :: c :: r) - length r) (a :: b :: c :: r) = [a; b; c].
Proof. simpl length. now rewrite sub_len3. Qed.

(** [:(\d{2})] *)
Lemma run_seq {A} (ic : bool) (a b : regex) (p : option ascii) (s : str)
    (g : groups) (k : cont A) :
  run ic (Seq a b) p s g k
  = run ic a p s g (fun p' s' g' => run ic b p' s' g' k).
Proof. reflexivity. Qed.

Lemma run_grp {A} (ic : bool) (n : nat) (a : regex) (p : option ascii)
    (s : str) (g : groups) (k : cont A) :
  run ic (Grp n a) p s g k
  = run ic a p s g
      (fun p' s' g' => k p' s' ((n, firstn (length s - length s') s) :: g')).
Proof. reflexivity. Qed.

Lemma run_rep {A} (ic : bool) (c : cls) (lo : nat) (hi : option nat)
    (gr : bool) (p : option ascii) (s : str) (g : groups) (k : cont A) :
  run ic (Rep c lo hi gr) p s g k = rep ic c gr s lo hi p g k.
Proof. reflexivity. Qed.


End MatcherEquations.

(** ** The pace token of a clause *)

Section PaceToken.

Import Py Re RegexWorkoutParser.

(** A colon and two digits at the head of a text: the seconds. *)
Definition pace_tail (s : str) : option str :=
  match s with
  | x :: c :: d :: _ =>
      if Ascii.eqb x ":" && isdigit c && isdigit d then Some [c; d] else None
  | _ => None
  end.

Definition pace_at (s : str) : option (str * str) :=
  match s with
  | a :: r =>
      if isdigit a then
        match r with
        | b :: r' =>
            if isdigit b then
              match pace_tail r' with
              | Some ss => Some ([a; b], ss)
              | None => option_map (pair [a]) (pace_tail r)
              end
            else option_map (pair [a]) (pace_tail r)
        | [] => None
        end
      else None
  | [] => None
  end.

Definition pace_groups (t : str * str) : groups := [(2, snd t); (1, fst t)].

Lemma run_colon_seconds {A} (p : option ascii) (s : str) (g : groups)
    (k : cont A) :
  run false (Seq (ch ":") (Grp 2 (Rep Digit 2 (Some 2) true))) p s g k
  = match s with
    | x :: c :: d :: r =>
        if Ascii.eqb x ":" && isdigit c && isdigit d
        then k (Some d) r ((2, [c; d]) :: g) else None
    | _ => None
    end.
Proof.
  destruct s as [|x s]; [reflexivity|].
  cbn [run ch cls_mem chr_eqb]. destruct (Ascii.eqb x ":"); simpl andb.
  - rewrite rep_two_digits. destruct s as [|c [|d r]]; try reflexivity.
    destruct (isdigit c && isdigit d); [|reflexivity]. now rewrite take2.
  - now destruct s as [|c [|d r]].
Qed.

Lemma pace_match_at (p : option ascii) (s : str) :
  option_map snd (match_at false PACE_PATTERN p s)
  = option_map pace_groups (pace_at s).
Proof.
  unfold match_at, PACE_PATTERN, seq.
  rewrite run_seq, run_grp, run_rep, rep_one_or_two_digits.
  unfold pace_at, pace_groups.
  destruct s as [|a r]; [reflexivity|].
  destruct (isdigit a); [|reflexivity].
  destruct r as [|b r'].
  - now rewrite run_colon_seconds.
  - rewrite take1, take2, !run_colon_seconds. unfold pace_tail.
    destruct (isdigit b); destruct r' as [|x [|c [|d r]]]; simpl;
      repeat match goal with
             | |- context [if ?t then _ else _] => destruct t; simpl
             end; reflexivity.
Qed.

(** The leftmost pace token [M:SS] or [MM:SS] of a text: its minutes and
    its seconds. *)
Fixpoint pace_token (s : str) : option (str * str) :=
  match pace_at s with
  | Some t => Some t
  | None => match s with _ :: s' => pace_token s' | [] => None end
  end.

Lemma pace_search_from (s : str) :
  forall p, search_from false PACE_PATTERN p s
            = option_map pace_groups (pace_token s).
Proof.
  induction s as [|x s IH]; intros p; pose proof (pace_match_at p) as H.
  - specialize (H []). cbn [search_from pace_token].
    destruct (match_at false PACE_PATTERN p []) as [[n g]|];
      destruct (pace_at []); simpl in H; try discriminate.
    + now injection H as ->.
    + reflexivity.
  - specialize (H (x :: s)). cbn [search_from pace_token].
    destruct (match_at false PACE_PATTERN p (x :: s)) as [[n g]|];
      destruct (pace_at (x :: s)); simpl in H; try discriminate.
    + now injection H as ->.
    + apply IH.
Qed.

Lemma pace_at_form (s m ss : str) :
  pace_at s = Some (m, ss) -> pace_form m ss = true.
Proof.
  unfold pace_at, pace_form.
  destruct s as [|a r]; [discriminate|].
  destruct (isdigit a) eqn:Ea; [|discriminate].
  assert (Hone : option_map (pair [a]) (pace_tail r) = Some (m, ss) ->
            forallb isdigit m && ((length m =? 1)%nat || (length m =? 2)%nat)
            && forallb isdigit ss && (length ss =? 2)%nat = true).
  { unfold pace_tail. destruct r as [|x [|c [|d r]]]; try discriminate.
    destruct (Ascii.eqb x ":" && isdigit c && isdigit d) eqn:E;
      [|discriminate].
    intros H. injection H as <- <-.
    apply andb_true_iff in E as [E Hd]. apply andb_true_iff in E as [_ Hc].
    simpl. now rewrite Ea, Hc, Hd. }
  destruct r as [|b r']; [discriminate|].
  destruct (isdigit b) eqn:Eb; [|exact Hone].
  destruct (pace_tail r') as [t|] eqn:Et; [|exact Hone].
  intros H. injection H as <- <-.
  unfold pace_tail in Et. destruct r' as [|x [|c [|d r]]]; try discriminate.
  destruct (Ascii.eqb x ":" && isdigit c && isdigit d) eqn:E; [|discriminate].
  injection Et as <-.
  apply andb_true_iff in E as [E Hd]. apply andb_true_iff in E as [_ Hc].
  simpl. now rewrite Ea, Eb, Hc, Hd.
Qed.

Lemma pace_token_form (s m ss : str) :
  pace_token s = Some (m, ss) -> pace_form m ss = true.
Proof.
  induction s as [|x s IH]; cbn [pace_token].
  - destruct (pace_at []) eqn:E; [|discriminate].
    intros H. injection H as ->. exact (pace_at_form _ _ _ E).
  - destruct (pace_at (x :: s)) eqn:E; [|exact IH].
    intros H. injection H as ->. exact (pace_at_form _ _ _ E).
Qed.

End PaceToken.

(** ** The heart-rate token of a clause *)

Section HeartRateToken.

Import Py Re RegexWorkoutParser.

Lemma option_map_orelse {A B} (f : A -> B) (x y : option A) :
  option_map f (orelse x y) = orelse (option_map f x) (option_map f y).
Proof. now destruct x. Qed.

Lemma rep_ext {A} (ic : bool) (c : cls) (gr : bool) (k k' : cont A) :
  (forall p s g, k p s g = k' p s g) ->
  forall s lo hi p g, rep ic c gr s lo hi p g k = rep ic c gr s lo hi p g k'.
Proof.
  intros Hk. induction s as [|x s IH]; intros lo hi p g; simpl.
  - now rewrite Hk.
  - now rewrite Hk, IH.
Qed.

(** Continuations that agree everywhere give the same result. *)
Lemma run_ext {A} (ic : bool) (r : regex) :
  forall (k k' : cont A), (forall p s g, k p s g = k' p s g) ->
  forall p s g, run ic r p s g k = run ic r p s g k'.
Proof.
  induction r as [|c|a IHa b IHb|a IHa b IHb|a IHa|c lo hi gr|n a IHa| | |];
    intros k k' Hk p s g; simpl.
  - apply Hk.
  - destruct s; [reflexivity|]. now rewrite Hk.
  - apply IHa. intros; now apply IHb.
  - now rewrite (IHa k k' Hk), (IHb k k' Hk).
  - now rewrite (IHa k k' Hk), Hk.
  - now apply rep_ext.
  - apply IHa. intros; apply Hk.
  - now rewrite Hk.
  - now rewrite Hk.
  - now rewrite Hk.
Qed.

Lemma rep_map {A B} (f : A -> B) (ic : bool) (c : cls) (gr : bool)
    (k : cont A) :
  forall s lo hi p g,
  option_map f (rep ic c gr s lo hi p g k)
  = rep ic c gr s lo hi p g (fun p s g => option_map f (k p s g)).
Proof.
  induction s as [|x s IH]; intros lo hi p g; simpl.
  - now destruct lo.
  - destruct (cls_mem ic c x && allows hi).
    + destruct gr; rewrite option_map_orelse, IH; now destruct lo.
    + now destruct lo.
Qed.

(** A function applied to the result can be applied by the continuation. *)
Lemma run_map {A B} (f : A -> B) (ic : bool) (r : regex) :
  forall (k : cont A) p s g,
  option_map f (run ic r p s g k)
  = run ic r p s g (fun p s g => option_map f (k p s g)).
Proof.
  induction r as [|c|a IHa b IHb|a IHa b IHb|a IHa|c lo hi gr|n a IHa| | |];
    intros k p s g; simpl.
  - reflexivity.
  - destruct s as [|x s]; [reflexivity|]. now destruct (cls_mem ic c x).
  - rewrite IHa. apply run_ext. intros; apply IHb.
  - now rewrite option_map_orelse, IHa, IHb.
  - now rewrite option_map_orelse, IHa.
  - apply rep_map.
  - now rewrite IHa.
  - now destruct p.
  - destruct s as [|x s]; [reflexivity|].
    destruct x as [[] [] [] [] [] [] [] []]; try reflexivity.
    now destruct s.
  - now destruct (xorb _ _).
Qed.

(** The groups of the match at a position. *)
Lemma match_groups (ic : bool) (r : regex) (p : option ascii) (s : str) :
  option_map snd (match_at ic r p s) = run ic r p s [] (fun _ _ g => Some g).
Proof. unfold match_at. now rewrite run_map. Qed.

(** [w] is a prefix of [s], letter case set aside when [ic] holds. *)
Fixpoint starts (ic : bool) (w s : str) : bool :=
  match w, s with
  | [], _ => true
  | a :: w', x :: s' => chr_eqb ic a x && starts ic w' s'
  | _ :: _, [] => false
  end.

Lemma run_text {A} (ic : bool) (w : str) (k : cont A) :
  (forall p p' s g, k p s g = k p' s g) ->
  forall p s g,
  run ic (text w) p s g k
  = if starts ic w s then k None (skipn (length w) s) g else None.
Proof.
  intros Hk. induction w as [|a w IH]; intros p s g.
  - simpl. apply Hk.
  - destruct w as [|b w].
    + destruct s as [|x s]; simpl; [reflexivity|].
      destruct (chr_eqb ic a x); simpl; [apply Hk|reflexivity].
    + change (text (a :: b :: w)) with (Seq (One (Chr a)) (text (b :: w))).
      rewrite run_seq. destruct s as [|x s]; [reflexivity|].
      cbn [run cls_mem starts length skipn].
      destruct (chr_eqb ic a x); [|reflexivity]. apply IH.
Qed.

Lemma isspace_cases (x : ascii) :
  isspace x = true ->
  In x ["009"; "010"; "011"; "012"; "013"; "028"; "029"; "030"; "031"; " ";
        "133"; "160"]%char.
Proof.
  destruct x as [[] [] [] [] [] [] [] []]; intros H;
    try discriminate H; simpl; tauto.
Qed.

(** [\s*], greedy, before something that cannot begin with white space:
    all the white space is passed over. *)
Lemma rep_space_skip {A} (ic : bool) (k : cont A) :
  (forall p p' s g, k p s g = k p' s g) ->
  (forall x s g, isspace x = true -> k None (x :: s) g = None) ->
  forall s p g, rep ic Space true s 0 None p g k = k None (lstrip s) g.
Proof.
  intros Hk Hsp. induction s as [|x s IH]; intros p g; simpl.
  - apply Hk.
  - destruct (isspace x) eqn:E; simpl.
    + rewrite IH, (Hk p None), (Hsp x s g E). apply orelse_none_r.
    + apply Hk.
Qed.

(** [bpm] or [beat] at the head of a text, in any letter case. *)
Definition unit_here (s : str) : bool :=
  starts true "bpm" s || starts true "beat" s.

(** The same after optional white space. *)
Definition unit_follows (s : str) : bool := unit_here (lstrip s).

Definition groups_only : cont groups := fun _ _ g => Some g.

Lemma run_opt_s (p : option ascii) (s : str) (g : groups) :
  run true (Opt (ch "s")) p s g groups_only = Some g.
Proof.
  destruct s as [|x s]; [reflexivity|].
  cbn [run ch cls_mem]. now destruct (chr_eqb true "s" x).
Qed.

Lemma run_unit (p : option ascii) (s : str) (g : groups) :
  run true (Alt (text "bpm") (Seq (text "beat") (Opt (ch "s")))) p s g
    groups_only
  = if unit_here s then Some g else None.
Proof.
  change (orelse
            (run true (text "bpm") p s g groups_only)
            (run true (Seq (text "beat") (Opt (ch "s"))) p s g groups_only)
          = if unit_here s then Some g else None).
  rewrite run_seq.
  rewrite (run_text true "bpm" groups_only) by reflexivity.
  rewrite (run_text true "beat"
             (fun p' s' g' => run true (Opt (ch "s")) p' s' g' groups_only))
    by (intros; now rewrite !run_opt_s).
  rewrite run_opt_s. unfold unit_here, groups_only.
  destruct (starts true "bpm" s), (starts true "beat" s); reflexivity.
Qed.

Lemma unit_not_after_space (x : ascii) (s : str) :
  isspace x = true -> unit_here (x :: s) = false.
Proof.
  intros H. apply isspace_cases in H. simpl in H.
  repeat (destruct H as [<-|H]; [reflexivity|]). contradiction.
Qed.

Lemma run_space_unit (p : option ascii) (s : str) (g : groups) :
  run true (Seq (star Space) (Alt (text "bpm") (Seq (text "beat") (Opt (ch "s")))))
    p s g groups_only
  = if unit_follows s then Some g else None.
Proof.
  rewrite run_seq. unfold star. rewrite run_rep.
  rewrite (rep_space_skip true).
  - apply run_unit.
  - intros q q' t h. now rewrite !run_unit.
  - intros x t h Hx. now rewrite run_unit, (unit_not_after_space x t Hx).
Qed.

(** [\d{2,3}], greedy: three digits first, then two. *)
Lemma rep_two_or_three_digits {A} (ic : bool) (s : str) (p : option ascii)
    (g : groups) (k : cont A) :
  rep ic Digit true s 2 (Some 3) p g k
  = match s with
    | a :: b :: r =>
        if isdigit a && isdigit b then
          match r with
          | c :: r' =>
              if isdigit c then orelse (k (Some c) r' g) (k (Some b) r g)
              else k (Some b) r g
          | [] => k (Some b) r g
          end
        else None
    | _ => None
    end.
Proof.
  destruct s as [|a [|b [|c r]]]; simpl; try reflexivity.
  - now destruct (isdigit a).
  - destruct (isdigit a); simpl; [|reflexivity].
    destruct (isdigit b); simpl; rewrite ?orelse_none_r; reflexivity.
  - destruct (isdigit a); simpl; [|reflexivity].
    destruct (isdigit b); simpl; [|reflexivity].
    destruct (isdigit c); simpl; rewrite ?rep_done, !orelse_none_r; reflexivity.
Qed.

(** Two or three digits at the head of a text, followed by the unit: the
    digits.  Three digits are preferred to two. *)
Definition hr_at (s : str) : option str :=
  match s with
  | a :: b :: r =>
      if isdigit a && isdigit b then
        match r with
        | c :: r' =>
            if isdigit c && unit_follows r' then Some [a; b; c]
            else if unit_follows r then Some [a; b] else None
        | [] => None
        end
      else None
  | _ => None
  end.

(** The leftmost heart-rate token of a text: its digits. *)
Fixpoint hr_token (s : str) : option str :=
  match hr_at s with
  | Some ds => Some ds
  | None => match s with _ :: s' => hr_token s' | [] => None end
  end.

Definition hr_groups (ds : str) : groups := [(1, ds)].

Lemma hr_match_at (p : option ascii) (s : str) :
  option_map snd (match_at true HR_PATTERN p s)
  = option_map hr_groups (hr_at s).
Proof.
  rewrite match_groups. unfold HR_PATTERN, seq.
  rewrite run_seq, run_grp, run_rep, rep_two_or_three_digits.
  unfold hr_at, hr_groups. fold groups_only.
  destruct s as [|a [|b r]]; try reflexivity.
  destruct (isdigit a && isdigit b); [|reflexivity].
  destruct r as [|c r'].
  - now rewrite run_space_unit.
  - rewrite take2, take3, !run_space_unit.
    destruct (isdigit c); simpl andb.
    + destruct (unit_follows r'); [reflexivity|].
      now destruct (unit_follows (c :: r')).
    + now destruct (unit_follows (c :: r')).
Qed.

Lemma hr_search_from (s : str) :
  forall p, search_from true HR_PATTERN p s
            = option_map hr_groups (hr_token s).
Proof.
  induction s as [|x s IH]; intros p; pose proof (hr_match_at p) as H.
  - specialize (H []). cbn [search_from hr_token].
    destruct (match_at true HR_PATTERN p []) as [[n g]|];
      destruct (hr_at []); simpl in H; try discriminate.
    + now injection H as ->.
    + reflexivity.
  - specialize (H (x :: s)). cbn [search_from hr_token].
    destruct (match_at true HR_PATTERN p (x :: s)) as [[n g]|];
      destruct (hr_at (x :: s)); simpl in H; try discriminate.
    + now injection H as ->.
    + apply IH.
Qed.

Lemma hr_at_digits (s ds : str) :
  hr_at s = Some ds ->
  forallb isdigit ds = true /\ exists c r, ds = c :: r.
Proof.
  unfold hr_at. destruct s as [|a [|b r]]; try discriminate.
  destruct (isdigit a && isdigit b) eqn:E; [|discriminate].
  apply andb_true_iff in E as [Ea Eb].
  destruct r as [|c r']; [discriminate|].
  destruct (isdigit c && unit_follows r') eqn:Ec.
  - intros H. injection H as <-. apply andb_true_iff in Ec as [Ec _].
    simpl. rewrite Ea, Eb, Ec. eauto.
  - destruct (unit_follows (c :: r')); [|discriminate].
    intros H. injection H as <-. simpl. rewrite Ea, Eb. eauto.
Qed.

Lemma hr_token_digits (s ds : str) :
  hr_token s = Some ds ->
  forallb isdigit ds = true /\ exists c r, ds = c :: r.
Proof.
  induction s as [|x s IH]; cbn [hr_token].
  - destruct (hr_at []) eqn:E; [|discriminate].
    intros H. injection H as ->. exact (hr_at_digits _ _ E).
  - destruct (hr_at (x :: s)) eqn:E; [|exact IH].
    intros H. injection H as ->. exact (hr_at_digits _ _ E).
Qed.

End HeartRateToken.

(** ** Target resolution ([_parse_target]) *)

Section TargetResolution.

Import Py Re RegexWorkoutParser.

Lemma new_HeartRateTarget_min (n : Z) :
  new_HeartRateTarget n None
  = if in_range 40 220 n
    then Ok {| min_bpm := n; max_bpm := None |}
    else Err (ValidationError "HeartRateTarget" ["min_bpm"]).
Proof.
  unfold new_HeartRateTarget, checked, HeartRateTarget_errors, range_errors.
  simpl. now destruct (in_range 40 220 n).
Qed.

Lemma new_PaceTarget_min (n : Z) :
  new_PaceTarget n None
  = if in_range 60 1200 n
    then Ok {| min_seconds_per_km := n; max_seconds_per_km := None |}
    else Err (ValidationError "PaceTarget" ["min_seconds_per_km"]).
Proof.
  unfold new_PaceTarget, checked, PaceTarget_errors, range_errors.
  simpl. now destruct (in_range 60 1200 n).
Qed.

(** C7, within the range the constructor accepts.  If the leftmost group
    of two or three digits that is followed, after optional white space, by
    [bpm] or [beat] in the trimmed clause is [ds], target resolution yields
    a HeartRate target with [min_bpm = ds] and no [max_bpm] when
    [40 <= ds <= 220], and fails with a validation error otherwise.  A pace
    token in the same clause plays no part: this rule comes first. *)
Theorem heart_rate_target (clause ds : str)
    (Hne : clause <> [])
    (Htok : hr_token (strip clause) = Some ds) :
  _parse_target (Some clause)
  = if in_range 40 220 (value ds)
    then Ok (HEART_RATE, None, Some {| min_bpm := value ds; max_bpm := None |})
    else Err (ValidationError "HeartRateTarget" ["min_bpm"]).
Proof.
  destruct clause as [|c clause]; [now elim Hne|].
  unfold _parse_target, Re.search. rewrite hr_search_from, Htok.
  cbn [option_map]. unfold hr_groups, grp. cbn [group Nat.eqb].
  destruct (hr_token_digits _ _ Htok) as [Hd (d & r & ->)].
  unfold to_int. rewrite (int_of_digits d r Hd). cbn [bind].
  rewrite new_HeartRateTarget_min.
  now destruct (in_range 40 220 (value (d :: r))).
Qed.

Lemma heart_rate_target_witness :
  _parse_target (Some (lit "4:45 at 150 BPM"))
  = Ok (HEART_RATE, None, Some {| min_bpm := 150; max_bpm := None |}).
Proof.
  apply (heart_rate_target (lit "4:45 at 150 BPM") (lit "150")).
  - discriminate.
  - vm_compute. reflexivity.
Defined.

(** C7, as stated, fails: "300 bpm" holds a number immediately followed by
    [bpm], and target resolution raises instead of returning a HeartRate
    target with [min_bpm = 300]. *)
Lemma heart_rate_out_of_range :
  hr_token (lit "300 bpm") = Some (lit "300") /\
  _parse_target (Some (lit "300 bpm"))
  = Err (ValidationError "HeartRateTarget" ["min_bpm"]).
Proof. split; vm_compute; reflexivity. Qed.

(** C5, as the code has it.  In a clause without a heart-rate token:
    when the trimmed clause holds no token [M:SS] or [MM:SS], the result is
    the Open target and no error; when the leftmost token has seconds of 60
    or more, resolution fails with the pace-seconds error; otherwise the
    result is a Pace target with [min_seconds_per_km = M*60+SS] and no
    maximum when that lies in 60..1200, and a validation error when it
    does not. *)
Theorem pace_target_resolution (clause : str)
    (Hne : clause <> [])
    (Hhr : hr_token (strip clause) = None) :
  _parse_target (Some clause)
  = match pace_token (strip clause) with
    | None => Ok (TARGET_OPEN, None, None)
    | Some (m, ss) =>
        if (60 <=? value ss)%Z then Err (PaceSeconds (value ss))
        else if in_range 60 1200 (value m * 60 + value ss)
        then Ok (PACE,
                 Some {| min_seconds_per_km := (value m * 60 + value ss)%Z;
                         max_seconds_per_km := None |},
                 None)
        else Err (ValidationError "PaceTarget" ["min_seconds_per_km"])
    end.
Proof.
  destruct clause as [|c clause]; [now elim Hne|].
  unfold _parse_target, Re.search.
  rewrite hr_search_from, Hhr, pace_search_from. cbn [option_map].
  destruct (pace_token (strip (c :: clause))) as [[m ss]|] eqn:E;
    [|reflexivity].
  cbn [option_map]. unfold pace_groups, grp. cbn [group Nat.eqb fst snd].
  change (m ++ ":"%char :: ss) with (pace_text m ss).
  rewrite (from_pace_string_form m ss (pace_token_form _ _ _ E)).
  destruct (60 <=? value ss)%Z; [reflexivity|].
  rewrite new_PaceTarget_min.
  now destruct (in_range 60 1200 (value m * 60 + value ss)).
Qed.

Lemma pace_target_resolution_witness :
  _parse_target (Some (lit "4:45/km"))
  = Ok (PACE,
        Some {| min_seconds_per_km := 285; max_seconds_per_km := None |},
        None).
Proof.
  apply (pace_target_resolution (lit "4:45/km")).
  - discriminate.
  - vm_compute. reflexivity.
Defined.

(** C5, as stated, fails: "5:3" holds a colon and no token [M:SS], and
    target resolution returns the Open target instead of failing with a
    pace-format error. *)
Lemma colon_without_token_is_open :
  contains_char ":" (lit "5:3") = true /\
  pace_token (lit "5:3") = None /\
  _parse_target (Some (lit "5:3")) = Ok (TARGET_OPEN, None, None).
Proof. repeat split; vm_compute; reflexivity. Qed.

End TargetResolution.

(** ** Normalization ([_normalize_text]) *)

Section Normalization.

Import Py Re RegexWorkoutParser.

(** [;], [,] and newline: the separators the first rewrite collapses. *)
Definition is_sep (x : ascii) : bool :=
  cls_mem false (OneOf [";"; ","; "010"]%char) x.

(** Each run of separators becomes one comma; [in_run] tells that the
    comma of the current run is already written. *)
Fixpoint collapse (in_run : bool) (s : str) : str :=
  match s with
  | [] => []
  | x :: s' =>
      if is_sep x
      then if in_run then collapse true s' else ","%char :: collapse true s'
      else x :: collapse false s'
  end.

(** The first two operations of the normalizer: lower case and trim, then
    the separator rewrite. *)
Definition canonical_separators (text : str) : str :=
  apply_rewrite (strip (lower text))
    (plus (OneOf [";"; ","; "010"]%char), [Text ","]).

(** The length of the run of separators at the head of a text. *)
Fixpoint sep_run (s : str) : nat :=
  match s with
  | x :: s' => if is_sep x then S (sep_run s') else 0
  | [] => 0
  end.

Lemma rep_sep_run (s : str) :
  forall (lo : nat) (p : option ascii) (g : groups) (n : nat),
  rep false (OneOf [";"; ","; "010"]%char) true s lo None p g
    (fun _ s' g' => Some (n - length s', g'))
  = if (lo <=? sep_run s)%nat
    then Some (n - (length s - sep_run s), g) else None.
Proof.
  induction s as [|x s IH]; intros lo p g n.
  - destruct lo; reflexivity.
  - cbn [rep sep_run]. fold (is_sep x). rewrite andb_true_r.
    destruct (is_sep x).
    + rewrite IH. cbn [dec_hi option_map length].
      destruct lo as [|lo]; cbn [pred Nat.leb Nat.sub].
      * destruct (sep_run s); reflexivity.
      * destruct (lo <=? sep_run s)%nat; reflexivity.
    + destruct lo; cbn [Nat.leb]; [|reflexivity].
      now rewrite Nat.sub_0_r.
Qed.

Lemma sep_run_le (s : str) : sep_run s <= length s.
Proof.
  induction s as [|x s IH]; simpl; [lia|]. destruct (is_sep x); lia.
Qed.

(** The separator pattern at a position: the whole run, if there is one. *)
Lemma match_at_separators (p : option ascii) (s : str) :
  match_at false (plus (OneOf [";"; ","; "010"]%char)) p s
  = if (1 <=? sep_run s)%nat then Some (sep_run s, []) else None.
Proof.
  unfold match_at, plus. rewrite run_rep, rep_sep_run.
  destruct (1 <=? sep_run s)%nat; [|reflexivity].
  do 2 f_equal. pose proof (sep_run_le s). lia.
Qed.

(** The first rewrite is [collapse]. *)
Lemma sub_separators (s : str) :
  (forall p, sub_from false (plus (OneOf [";"; ","; "010"]%char)) [Text ","]
               p s 0 = collapse false s) /\
  (forall p, sub_from false (plus (OneOf [";"; ","; "010"]%char)) [Text ","]
               p s (sep_run s) = collapse true s).
Proof.
  induction s as [|x s [IH0 IH1]]; [split; reflexivity|].
  assert (H0 : forall p,
             sub_from false (plus (OneOf [";"; ","; "010"]%char)) [Text ","]
               p (x :: s) 0 = collapse false (x :: s)).
  { intros p. cbn [sub_from]. rewrite match_at_separators.
    cbn [sep_run collapse]. destruct (is_sep x).
    - cbn [Nat.leb]. rewrite IH1. reflexivity.
    - cbn [Nat.leb]. now rewrite IH0. }
  split; [exact H0|]. intros p.
  pose proof (H0 p) as H. cbn [sep_run collapse] in *.
  destruct (is_sep x); [|exact H].
  cbn [sub_from]. apply IH1.
Qed.

Lemma collapse_idempotent (s : str) :
  collapse false (collapse false s) = collapse false s /\
  collapse true (collapse true s) = collapse true s.
Proof.
  induction s as [|x s [IH0 IH1]]; [split; reflexivity|].
  cbn [collapse]. destruct (is_sep x) eqn:E.
  - split; [|exact IH1].
    cbn [collapse]. change (is_sep ",") with true. cbv iota. now rewrite IH1.
  - cbn [collapse]. rewrite E, IH0. split; reflexivity.
Qed.

Lemma lower_char_idempotent (x : ascii) :
  lower_char (lower_char x) = lower_char x.
Proof. destruct x as [[] [] [] [] [] [] [] []]; reflexivity. Qed.

Lemma is_sep_lower (x : ascii) : is_sep x = true -> lower_char x = x.
Proof.
  destruct x as [[] [] [] [] [] [] [] []]; intros H; try discriminate H;
    reflexivity.
Qed.

(** Text in lower case: [lower] leaves every character as it is. *)
Definition lowered (s : str) : Prop := Forall (fun x => lower_char x = x) s.

Lemma lowered_lower (s : str) : lowered (lower s).
Proof.
  induction s; constructor; [apply lower_char_idempotent|assumption].
Qed.

Lemma lower_lowered (s : str) : lowered s -> lower s = s.
Proof.
  induction 1 as [|x s Hx _ IH]; simpl; [reflexivity|]. now rewrite Hx, IH.
Qed.

Lemma lowered_strip (s : str) : lowered s -> lowered (strip s).
Proof.
  intros H. destruct (strip_decompose s) as (w & e & Hs).
  unfold lowered in *. rewrite Hs in H.
  apply Forall_app in H as [_ H]. now apply Forall_app in H as [H _].
Qed.

Lemma lowered_collapse (s : str) :
  lowered s -> forall b, lowered (collapse b s).
Proof.
  induction 1 as [|x s Hx _ IH]; intros b; [constructor|].
  cbn [collapse]. destruct (is_sep x).
  - destruct b; [apply IH|]. constructor; [reflexivity|apply IH].
  - constructor; [exact Hx|apply IH].
Qed.

(** Trimmed text: no white space at either end. *)
Definition head_ok (s : str) : bool :=
  match s with x :: _ => negb (isspace x) | [] => true end.

Definition trimmed (s : str) : bool := head_ok s && head_ok (rev s).

Lemma lstrip_head_ok (s : str) : head_ok (lstrip s) = true.
Proof.
  induction s as [|x s IH]; [reflexivity|]. simpl.
  destruct (isspace x) eqn:E; [exact IH|]. simpl. now rewrite E.
Qed.

Lemma lstrip_of_head_ok (s : str) : head_ok s = true -> lstrip s = s.
Proof.
  destruct s as [|x s]; [reflexivity|]. simpl.
  now destruct (isspace x).
Qed.

Lemma trimmed_strip_id (s : str) : trimmed s = true -> strip s = s.
Proof.
  intros H. apply andb_true_iff in H as [H1 H2].
  unfold strip, rstrip. rewrite (lstrip_of_head_ok s H1).
  rewrite (lstrip_of_head_ok (rev s) H2). apply rev_involutive.
Qed.

Lemma strip_trimmed (s : str) : trimmed (strip s) = true.
Proof.
  unfold trimmed, strip. apply andb_true_iff. split.
  - destruct (rstrip_decompose (lstrip s)) as [e He].
    pose proof (lstrip_head_ok s) as H. rewrite He in H.
    now destruct (rstrip (lstrip s)).
  - unfold rstrip. rewrite rev_involutive. apply lstrip_head_ok.
Qed.

Lemma head_ok_rev_cons (x : ascii) (s : str) :
  head_ok (rev (x :: s))
  = match s with [] => negb (isspace x) | _ => head_ok (rev s) end.
Proof.
  simpl rev. destruct s as [|y s]; [reflexivity|].
  destruct (rev (y :: s)) as [|z r] eqn:E; [|reflexivity].
  apply (f_equal (@length ascii)) in E. rewrite length_rev in E. discriminate.
Qed.

Lemma collapse_false_cons (x : ascii) (s : str) :
  exists y r, collapse false (x :: s) = y :: r.
Proof. cbn [collapse]. destruct (is_sep x); eauto. Qed.

(** [collapse] keeps the last character free of white space. *)
Lemma collapse_last_ok (s : str) :
  head_ok (rev s) = true -> forall b, head_ok (rev (collapse b s)) = true.
Proof.
  induction s as [|x s IH]; intros H b; [reflexivity|].
  rewrite head_ok_rev_cons in H. cbn [collapse].
  destruct s as [|y s].
  - cbn [collapse]. destruct (is_sep x); [now destruct b|].
    simpl. exact H.
  - specialize (IH H). destruct (is_sep x).
    + destruct b; [apply IH|].
      rewrite head_ok_rev_cons.
      destruct (collapse true (y :: s)) eqn:E; [reflexivity|].
      rewrite <- E. apply IH.
    + rewrite head_ok_rev_cons.
      destruct (collapse_false_cons y s) as (z & r & E). rewrite E.
      rewrite <- E. apply IH.
Qed.

Lemma collapse_trimmed (s : str) :
  trimmed s = true -> trimmed (collapse false s) = true.
Proof.
  unfold trimmed. intros H. apply andb_true_iff in H as [H1 H2].
  apply andb_true_iff. split; [|now apply collapse_last_ok].
  destruct s as [|x s]; [reflexivity|]. cbn [collapse].
  destruct (is_sep x); [reflexivity|exact H1].
Qed.

Lemma canonical_separators_eq (text : str) :
  canonical_separators text = collapse false (strip (lower text)).
Proof.
  unfold canonical_separators, apply_rewrite, sub. cbn [fst snd].
  apply sub_separators.
Qed.

(** C9, for the first two operations.  The normalizer starts with
    [canonical_separators] (lower case and trim, then every run of [;], [,]
    and newline turned into one comma) and goes on with the ten unit and
    spacing rewrites.  [canonical_separators] is idempotent: applied to its
    own output it returns that output unchanged. *)
Theorem separators_idempotent (text : str) :
  _normalize_text text
  = fold_left apply_rewrite (tl normalize_rules) (canonical_separators text) /\
  canonical_separators (canonical_separators text) = canonical_separators text.
Proof.
  split; [reflexivity|].
  rewrite !canonical_separators_eq.
  set (t := strip (lower text)).
  assert (Hl : lowered t) by apply lowered_strip, lowered_lower.
  assert (Ht : trimmed t = true) by apply strip_trimmed.
  rewrite (lower_lowered _ (lowered_collapse t Hl false)).
  rewrite (trimmed_strip_id _ (collapse_trimmed t Ht)).
  apply collapse_idempotent.
Qed.

(** C9, as stated, fails: "5 minutes" normalizes to "5 min", and "5 min"
    normalizes to "5min". *)
Lemma normalize_not_idempotent :
  _normalize_text "5 minutes" = lit "5 min" /\
  _normalize_text (_normalize_text "5 minutes") = lit "5min" /\
  _normalize_text (_normalize_text "5 minutes") <> _normalize_text "5 minutes".
Proof.
  split; [vm_compute; reflexivity|].
  split; [vm_compute; reflexivity|].
  vm_compute. discriminate.
Qed.

End Normalization.

(** * Further properties *)

(** ** Target constructors ([models/target.py]) *)

Section TargetConstructors.

Import Py PaceTargetM.

Lemma in_range_iff (lo hi v : Z) :
  in_range lo hi v = true <-> (lo <= v <= hi)%Z.
Proof.
  unfold in_range. rewrite andb_true_iff, !Z.leb_le. tauto.
Qed.

(** The range checks and the field validator together, for a lower bound
    above zero: the minimum lies in the range, and a maximum, if given,
    lies in the range and is not below the minimum. *)
Lemma range_errors_nil (lo hi : Z) (fmin fmax : string) (a : Z) (b : option Z) :
  (0 < lo)%Z ->
  range_errors lo hi fmin fmax a b = [] <->
  (lo <= a <= hi)%Z /\ (forall v, b = Some v -> (lo <= v <= hi)%Z /\ (a <= v)%Z).
Proof.
  intros Hlo. unfold range_errors.
  destruct (in_range lo hi a) eqn:Ea.
  - apply in_range_iff in Ea. simpl.
    destruct b as [v|].
    + destruct (in_range lo hi v) eqn:Ev; simpl.
      * apply in_range_iff in Ev.
        destruct (Z.eqb_spec a 0) as [->|_]; [lia|]. simpl.
        destruct (Z.ltb_spec v a) as [Hlt|Hge]; split; try discriminate.
        -- intros [_ H]. destruct (H v eq_refl). lia.
        -- intros _. split; [exact Ea|]. intros w Hw. injection Hw as <-.
           split; [exact Ev|lia].
        -- reflexivity.
      * split; [discriminate|]. intros [_ H]. destruct (H v eq_refl) as [H' _].
        apply in_range_iff in H'. congruence.
    + split; [|reflexivity]. intros _. split; [exact Ea|discriminate].
  - split.
    + intros H. apply app_eq_nil in H as [H _]. discriminate.
    + intros [H _]. apply in_range_iff in H. congruence.
Qed.

Lemma checked_ok {A} (model : string) (errors : A -> list string) (a r : A) :
  checked model errors a = Ok r <-> errors a = [] /\ r = a.
Proof.
  unfold checked. destruct (errors a); split.
  - intros H. injection H as <-. auto.
  - intros [_ ->]. reflexivity.
  - discriminate.
  - intros [H _]. discriminate.
Qed.

(** The three target constructors accept exactly the values within their
    ranges with the maximum, when given, not below the minimum, and store
    them as given. *)
Theorem target_constructors (a : Z) (b : option Z) :
  (forall p, new_PaceTarget a b = Ok p <->
     p = {| min_seconds_per_km := a; max_seconds_per_km := b |} /\
     (60 <= a <= 1200)%Z /\
     (forall v, b = Some v -> (60 <= v <= 1200)%Z /\ (a <= v)%Z)) /\
  (forall h, new_HeartRateTarget a b = Ok h <->
     h = {| min_bpm := a; max_bpm := b |} /\
     (40 <= a <= 220)%Z /\
     (forall v, b = Some v -> (40 <= v <= 220)%Z /\ (a <= v)%Z)) /\
  (forall c, new_CadenceTarget a b = Ok c <->
     c = {| min_spm := a; max_spm := b |} /\
     (60 <= a <= 220)%Z /\
     (forall v, b = Some v -> (60 <= v <= 220)%Z /\ (a <= v)%Z)).
Proof.
  unfold new_PaceTarget, new_HeartRateTarget, new_CadenceTarget.
  unfold PaceTarget_errors, HeartRateTarget_errors, CadenceTarget_errors.
  split; [|split]; intros r; split.
  all: try (intros H; apply checked_ok in H as [H ->]; cbn in H;
            apply range_errors_nil in H; [tauto|lia]).
  all: intros (-> & H1 & H2); apply checked_ok; split; [|reflexivity];
    cbn; apply range_errors_nil; [lia|tauto].
Qed.

End TargetConstructors.

(** ** Pace strings and display strings, read back *)

Section ReadBack.

Import Py PaceTargetM RegexWorkoutParser.

(** The integers [lo], [lo+1], ..., [lo+n-1]. *)
Fixpoint zrange (lo : Z) (n : nat) : list Z :=
  match n with
  | O => []
  | S n' => lo :: zrange (lo + 1) n'
  end.

Lemma zrange_in (n : nat) :
  forall lo z, (lo <= z < lo + Z.of_nat n)%Z -> In z (zrange lo n).
Proof.
  induction n as [|n IH]; intros lo z H; [lia|]. simpl.
  destruct (Z.eq_dec lo z) as [->|Hne]; [now left|].
  right. apply IH. lia.
Qed.

(** A check that holds on every integer of a range holds on each. *)
Lemma zrange_forall (f : Z -> bool) (lo hi : Z) :
  forallb f (zrange lo (Z.to_nat (hi - lo + 1))) = true ->
  forall z, (lo <= z <= hi)%Z -> f z = true.
Proof.
  intros H z Hz. rewrite forallb_forall in H. apply H, zrange_in. lia.
Qed.

Definition single_pace (n : Z) : PaceTarget :=
  {| min_seconds_per_km := n; max_seconds_per_km := None |}.

Definition single_hr (n : Z) : HeartRateTarget :=
  {| min_bpm := n; max_bpm := None |}.

Definition pace_eqb (p q : PaceTarget) : bool :=
  (min_seconds_per_km p =? min_seconds_per_km q)%Z
  && match max_seconds_per_km p, max_seconds_per_km q with
     | None, None => true
     | Some a, Some b => (a =? b)%Z
     | _, _ => false
     end.

Lemma pace_eqb_eq (p q : PaceTarget) : pace_eqb p q = true -> p = q.
Proof.
  destruct p as [a [b|]], q as [c [d|]]; unfold pace_eqb; simpl;
    intros H; apply andb_true_iff in H as [H1 H2]; try discriminate;
    apply Z.eqb_eq in H1; subst; [apply Z.eqb_eq in H2; subst|]; reflexivity.
Qed.

Definition reads_back_pace (n : Z) : bool :=
  match from_pace_string (to_pace_string (single_pace n)) with
  | Ok q => pace_eqb q (single_pace n)
  | Err _ => false
  end.

(** Formatting a pace and parsing the text gives the pace back: for every
    [PaceTarget] without a maximum that the constructor accepts,
    [from_pace_string (to_pace_string p) = p]. *)
Theorem pace_string_reads_back (p : PaceTarget)
    (Hmin : (60 <= min_seconds_per_km p <= 1200)%Z)
    (Hmax : max_seconds_per_km p = None) :
  from_pace_string (to_pace_string p) = Ok p.
Proof.
  assert (Hall : forallb reads_back_pace
                   (zrange 60 (Z.to_nat (1200 - 60 + 1))) = true)
    by (vm_compute; reflexivity).
  pose proof (zrange_forall reads_back_pace 60 1200 Hall _ Hmin) as H.
  destruct p as [n m]. simpl in Hmax, H. subst m.
  unfold reads_back_pace in H. fold (single_pace n).
  destruct (from_pace_string (to_pace_string (single_pace n))) as [q|];
    [|discriminate].
  now rewrite (pace_eqb_eq _ _ H).
Qed.

Lemma pace_string_reads_back_witness :
  from_pace_string (to_pace_string (single_pace 285)) = Ok (single_pace 285).
Proof.
  apply pace_string_reads_back; [vm_compute; split; discriminate|reflexivity].
Defined.

Definition target_eqb (t : result target) (kind : TargetType)
    (pace : option Z) (hr : option Z) : bool :=
  match t with
  | Ok (k, p, h) =>
      match k, kind with
      | PACE, PACE | HEART_RATE, HEART_RATE => true
      | _, _ => false
      end
      && match p, pace with
         | Some q, Some n => pace_eqb q (single_pace n)
         | None, None => true
         | _, _ => false
         end
      && match h, hr with
         | Some q, Some n =>
             (min_bpm q =? n)%Z
             && match max_bpm q with None => true | Some _ => false end
         | None, None => true
         | _, _ => false
         end
  | Err _ => false
  end.

Lemma target_eqb_pace (t : result target) (n : Z) :
  target_eqb t PACE (Some n) None = true ->
  t = Ok (PACE, Some (single_pace n), None).
Proof.
  destruct t as [[[k p] h]|e]; [|discriminate]. unfold target_eqb.
  intros H. apply andb_true_iff in H as [H Hh].
  apply andb_true_iff in H as [Hk Hp].
  destruct k; try discriminate. destruct p as [q|]; [|discriminate].
  destruct h; [discriminate|]. now rewrite (pace_eqb_eq _ _ Hp).
Qed.

Lemma target_eqb_hr (t : result target) (n : Z) :
  target_eqb t HEART_RATE None (Some n) = true ->
  t = Ok (HEART_RATE, None, Some (single_hr n)).
Proof.
  destruct t as [[[k p] h]|e]; [|discriminate]. unfold target_eqb.
  intros H. apply andb_true_iff in H as [H Hh].
  apply andb_true_iff in H as [Hk Hp].
  destruct k; try discriminate. destruct p; [discriminate|].
  destruct h as [[a [b|]]|]; try discriminate.
  - simpl in Hh. now rewrite andb_false_r in Hh.
  - simpl in Hh. rewrite andb_true_r in Hh. apply Z.eqb_eq in Hh.
    now subst.
Qed.

(** What the display shows for a single target can be typed back as a
    target clause: "5:30/km" resolves to the pace it was made from, and
    "150 bpm" to the heart rate it was made from. *)
Theorem displayed_target_reads_back (p : PaceTarget) (h : HeartRateTarget)
    (Hp : (60 <= min_seconds_per_km p <= 1200)%Z)
    (Hpmax : max_seconds_per_km p = None)
    (Hh : (40 <= min_bpm h <= 220)%Z)
    (Hhmax : max_bpm h = None) :
  _parse_target (Some (PaceTargetM.to_display_string p))
  = Ok (PACE, Some p, None) /\
  _parse_target (Some (HeartRateTargetM.to_display_string h))
  = Ok (HEART_RATE, None, Some h).
Proof.
  split.
  - assert (Hall : forallb
                     (fun n => target_eqb
                                 (_parse_target
                                    (Some (PaceTargetM.to_display_string
                                             (single_pace n))))
                                 PACE (Some n) None)
                     (zrange 60 (Z.to_nat (1200 - 60 + 1))) = true)
      by (vm_compute; reflexivity).
    pose proof (zrange_forall _ 60 1200 Hall _ Hp) as H. cbv beta in H.
    destruct p as [n m]. simpl in Hpmax, H. subst m.
    exact (target_eqb_pace _ _ H).
  - assert (Hall : forallb
                     (fun n => target_eqb
                                 (_parse_target
                                    (Some (HeartRateTargetM.to_display_string
                                             (single_hr n))))
                                 HEART_RATE None (Some n))
                     (zrange 40 (Z.to_nat (220 - 40 + 1))) = true)
      by (vm_compute; reflexivity).
    pose proof (zrange_forall _ 40 220 Hall _ Hh) as H. cbv beta in H.
    destruct h as [n m]. simpl in Hhmax, H. subst m.
    exact (target_eqb_hr _ _ H).
Qed.

Lemma displayed_target_reads_back_witness :
  _parse_target (Some (lit "5:30/km")) = Ok (PACE, Some (single_pace 330), None) /\
  _parse_target (Some (lit "150 bpm")) = Ok (HEART_RATE, None, Some (single_hr 150)).
Proof.
  apply (displayed_target_reads_back (single_pace 330) (single_hr 150));
    try reflexivity; vm_compute; split; discriminate.
Defined.

(** A displayed range does not read back: the clause "150-160 bpm"
    resolves to a heart rate of 160 with no maximum. *)
Example displayed_range_reads_back_differently :
  HeartRateTargetM.to_display_string {| min_bpm := 150; max_bpm := Some 160%Z |}
  = lit "150-160 bpm" /\
  _parse_target (Some (lit "150-160 bpm"))
  = Ok (HEART_RATE, None, Some (single_hr 160)).
Proof. split; vm_compute; reflexivity. Qed.

(** [from_pace_string] by the number of colons. *)

Lemma split_length (sep : ascii) (s : str) :
  length (split sep s) = S (count_occ ascii_dec s sep).
Proof.
  induction s as [|c s IH]; [reflexivity|]. simpl.
  destruct (Ascii.eqb_spec c sep) as [->|Hne].
  - destruct (ascii_dec sep sep); [|congruence]. simpl. now rewrite IH.
  - destruct (ascii_dec c sep); [congruence|].
    destruct (split sep s); simpl in *; [discriminate|exact IH].
Qed.

Lemma contains_char_count (c : ascii) (s : str) :
  contains_char c s = false <-> count_occ ascii_dec s c = 0.
Proof.
  induction s as [|x s IH]; simpl; [tauto|].
  destruct (Ascii.eqb_spec c x) as [->|Hne]; simpl.
  - destruct (ascii_dec x x); [|congruence]. split; discriminate.
  - destruct (ascii_dec x c); [congruence|]. exact IH.
Qed.

(** The pace text is trimmed first.  Without a colon it is refused as not
    being of the form M:SS; with two or more colons it is refused for
    having more than one; only with exactly one colon are the two parts
    looked at, and then neither of these two errors occurs. *)
Theorem from_pace_string_colons (pace : str) :
  let t := strip pace in
  let colons := count_occ ascii_dec t ":"%char in
  (colons = 0 -> from_pace_string pace = Err (PaceFormat t)) /\
  (2 <= colons -> from_pace_string pace = Err (PaceColons t)) /\
  (colons = 1 ->
   from_pace_string pace <> Err (PaceFormat t) /\
   from_pace_string pace <> Err (PaceColons t)).
Proof.
  intros t colons. unfold from_pace_string. fold t.
  pose proof (split_length ":" t) as Hlen. fold colons in Hlen.
  destruct (contains_char ":" t) eqn:E.
  - assert (colons <> 0).
    { intros H. apply contains_char_count in H. congruence. }
    simpl negb. cbv iota.
    destruct (split ":" t) as [|p0 [|p1 [|p2 l]]]; simpl in Hlen.
    + lia.
    + lia.
    + repeat split; try lia.
      * destruct (int p0), (int p1); try discriminate.
        destruct (60 <=? z0)%Z; [discriminate|].
        unfold new_PaceTarget, checked. destruct (PaceTarget_errors _);
          discriminate.
      * destruct (int p0), (int p1); try discriminate.
        destruct (60 <=? z0)%Z; [discriminate|].
        unfold new_PaceTarget, checked. destruct (PaceTarget_errors _);
          discriminate.
    + repeat split; try lia; reflexivity.
  - apply contains_char_count in E. fold colons in E.
    simpl negb. cbv iota. repeat split; try lia; reflexivity.
Qed.

End ReadBack.

(** ** Invariants of validated steps *)

Section StepInvariants.

Import Step.

Lemma no_errors_nil {A} (errs : A -> list string) (x : option A) :
  no_errors errs x = true -> forall a, x = Some a -> errs a = [].
Proof.
  intros H a ->. simpl in H. now destruct (errs a).
Qed.

Lemma valid_targets (self : WorkoutStep) :
  valid self = true ->
  no_errors PaceTarget_errors (pace_target self) = true /\
  no_errors HeartRateTarget_errors (hr_target self) = true /\
  no_errors CadenceTarget_errors (cadence_target self) = true.
Proof.
  rewrite valid_unfold. intros H.
  apply andb_true_iff in H as [H _]. apply andb_true_iff in H as [H H3].
  apply andb_true_iff in H as [H H2]. apply andb_true_iff in H as [_ H1].
  auto.
Qed.

(** A validated step carries a magnitude exactly when its duration is not
    Open, and the magnitude is above zero; it carries the payload of its
    target kind and no other payload, and that payload is within the
    ranges of its model. *)
Theorem validated_step_invariants (self : WorkoutStep)
    (Hv : valid self = true) :
  (duration_type self = DURATION_OPEN <-> duration_value self = None) /\
  (forall v, duration_value self = Some v -> (0 <? v)%float = true) /\
  match target_type self with
  | TARGET_OPEN =>
      pace_target self = None /\ hr_target self = None /\
      cadence_target self = None
  | PACE =>
      (exists p, pace_target self = Some p /\ PaceTarget_errors p = []) /\
      hr_target self = None /\ cadence_target self = None
  | HEART_RATE =>
      (exists h, hr_target self = Some h /\ HeartRateTarget_errors h = []) /\
      pace_target self = None /\ cadence_target self = None
  | CADENCE =>
      (exists c, cadence_target self = Some c /\ CadenceTarget_errors c = []) /\
      pace_target self = None /\ hr_target self = None
  end.
Proof.
  pose proof (valid_duration self Hv) as Hd.
  pose proof (valid_targets self Hv) as (Hp & Hh & Hc).
  pose proof (valid_errors self Hv) as He.
  apply errors_nil in He as (Hf & _ & Ht & _).
  split; [|split].
  - destruct (duration_type self); split; try discriminate; try tauto;
      destruct Hd as [v Hd]; congruence.
  - intros v Hval. unfold field_errors in Hf. rewrite Hval in Hf.
    apply app_eq_nil in Hf as [Hf _].
    now destruct (0 <? v)%float.
  - unfold validate_target_consistency in Ht.
    destruct (target_type self);
      destruct (pace_target self) as [p|] eqn:Ep;
      destruct (hr_target self) as [h|] eqn:Eh;
      destruct (cadence_target self) as [c|] eqn:Ec;
      simpl in Ht; try discriminate; repeat split; eauto using no_errors_nil.
Qed.

Lemma validated_step_invariants_witness :
  duration_type two_kilometer = DURATION_OPEN <->
  duration_value two_kilometer = None.
Proof.
  exact (proj1 (validated_step_invariants two_kilometer eq_refl)).
Defined.

End StepInvariants.

(** ** Total time and step count ([models/workout.py]) *)

Section TotalTime.

Import Step.

Definition is_time (self : WorkoutStep) : bool :=
  DurationType_eqb (duration_type self) TIME.

(** The time in seconds of a step that has one. *)
Definition seconds (self : WorkoutStep) : float :=
  match get_duration_in_seconds self with Some t => t | None => 0%float end.

Definition step_time (self : WorkoutStep) : float :=
  if is_repeat self
  then (fsum (map seconds (children self))
        * WorkoutM.float_of_int (times self))%float
  else seconds self.

(** The total time the loops add up, in minutes. *)
Definition sum_of_times_min (w : Workout) : float :=
  (fsum (map step_time (steps w)) / 60)%float.


Lemma valid_seconds_value (self : WorkoutStep) :
  valid self = true ->
  get_duration_in_seconds self =
  if is_time self then Some (seconds self) else None.
Proof.
  intros H. apply valid_duration in H.
  unfold seconds, is_time, get_duration_in_seconds.
  destruct (duration_type self); simpl; try reflexivity.
  destruct H as [v ->].
  destruct (duration_unit self) as [u|]; [|reflexivity].
  repeat match goal with
         | |- context [if ?b then _ else _] => destruct b
         end; reflexivity.
Qed.

Lemma repeat_time_loop_eq (l : list WorkoutStep) :
  forallb valid l = true ->
  forall acc,
  WorkoutM.repeat_time_loop l acc =
  if forallb is_time l
  then Some (fold_left PrimFloat.add (map seconds l) acc) else None.
Proof.
  induction l as [|c l IH]; simpl; intros Hv acc; [reflexivity|].
  apply andb_true_iff in Hv as [Hc Hl].
  rewrite (valid_seconds_value c Hc).
  destruct (is_time c); simpl; [|reflexivity].
  now apply IH.
Qed.

Lemma total_seconds_loop_eq (l : list WorkoutStep) :
  forallb valid l = true ->
  forall acc,
  WorkoutM.total_seconds_loop l acc =
  if forallb is_time
       (flat_map (fun s => if is_repeat s then children s else [s]) l)
  then Some (fold_left PrimFloat.add (map step_time l) acc) else None.
Proof.
  induction l as [|s l IH]; simpl; intros Hv acc; [reflexivity|].
  apply andb_true_iff in Hv as [Hs Hl].
  rewrite forallb_app, (valid_repeated s Hs).
  unfold step_time.
  destruct (is_repeat s) eqn:E.
  - assert (Hc : forallb valid (children s) = true).
    { apply forallb_forall. intros c Hc. exact (valid_children s c Hs Hc). }
    rewrite (repeat_time_loop_eq _ Hc), (valid_count s Hs E).
    destruct (forallb is_time (children s)); simpl; [|reflexivity].
    now apply IH.
  - rewrite (valid_seconds_value s Hs). simpl.
    destruct (is_time s); simpl; [|reflexivity].
    now apply IH.
Qed.

Lemma get_total_time_minutes_eq (w : Workout) :
  WorkoutM.valid w = true ->
  WorkoutM.get_total_time_minutes w =
  if forallb is_time (leaf_steps w) then Some (sum_of_times_min w) else None.
Proof.
  intros H. apply andb_true_iff in H as [_ H].
  unfold WorkoutM.get_total_time_minutes, leaf_steps, sum_of_times_min, fsum.
  rewrite (total_seconds_loop_eq _ H).
  now destruct (forallb is_time _).
Qed.


Definition time_workout : Workout :=
  workout_of [time_step WARMUP 10 "min";
              repeat_step 4 [time_step INTERVAL 90 "sec";
                             time_step RECOVERY 1 "min"]].


Lemma leaf_steps_nonempty (w : Workout) :
  WorkoutM.valid w = true -> leaf_steps w <> [].
Proof.
  intros H. apply andb_true_iff in H as [He Hs].
  unfold WorkoutM.errors in He. unfold leaf_steps.
  destruct (steps w) as [|s l]; simpl in *.
  - destruct (_ && _); discriminate.
  - apply andb_true_iff in Hs as [Hs _].
    pose proof (valid_repeat_fields s Hs) as Hr.
    destruct (is_repeat s); [|discriminate].
    destruct Hr as [_ (c & l' & Hc)]. unfold children. rewrite Hc. discriminate.
Qed.

(** A validated workout never has both a total distance and a total time:
    at most one of [get_total_distance_km] and [get_total_time_minutes]
    is defined. *)
Theorem distance_and_time_exclude (w : Workout)
    (Hw : WorkoutM.valid w = true) :
  WorkoutM.get_total_distance_km w = None \/
  WorkoutM.get_total_time_minutes w = None.
Proof.
  rewrite (get_total_distance_km_eq w Hw), (get_total_time_minutes_eq w Hw).
  pose proof (leaf_steps_nonempty w Hw) as Hne.
  destruct (leaf_steps w) as [|s l]; [congruence|]. simpl.
  unfold is_distance, is_time.
  destruct (duration_type s); simpl; auto.
Qed.

Lemma distance_and_time_exclude_witness :
  WorkoutM.get_total_distance_km time_workout = None.
Proof.
  destruct (distance_and_time_exclude time_workout eq_refl) as [H|H].
  - exact H.
  - discriminate H.
Defined.







End TotalTime.

(** ** What [parse] returns *)

Section ParseResults.

Import Py RegexWorkoutParser.

Lemma bind_ok {A B} (x : result A) (f : A -> result B) (b : B) :
  bind x f = Ok b -> exists a, x = Ok a /\ f a = Ok b.
Proof. destruct x as [a|e]; simpl; [eauto|discriminate]. Qed.

Lemma from_pace_string_ok (pace : str) (p : PaceTarget) :
  PaceTargetM.from_pace_string pace = Ok p -> PaceTarget_errors p = [].
Proof.
  unfold PaceTargetM.from_pace_string.
  destruct (negb _); [discriminate|].
  destruct (split ":" (strip pace)) as [|p0 [|p1 [|p2 l]]]; try discriminate.
  destruct (int p0), (int p1); try discriminate.
  destruct (60 <=? z0)%Z; [discriminate|].
  unfold new_PaceTarget. intros H. apply checked_ok in H as [H ->]. exact H.
Qed.

(** The payloads of a resolved target are within their ranges. *)
Lemma parse_target_payloads (target_str : option str) (k : TargetType)
    (p : option PaceTarget) (h : option HeartRateTarget) :
  _parse_target target_str = Ok (k, p, h) ->
  Step.no_errors PaceTarget_errors p = true /\
  Step.no_errors HeartRateTarget_errors h = true /\
  match k with
  | TARGET_OPEN => p = None /\ h = None
  | PACE => p <> None /\ h = None
  | HEART_RATE => p = None /\ h <> None
  | CADENCE => False
  end.
Proof.
  unfold _parse_target.
  destruct target_str as [[|c l]|];
    try (intros H; injection H as <- <- <-; repeat split; reflexivity).
  destruct (Re.search true HR_PATTERN _) as [g|].
  - intros H. apply bind_ok in H as (bpm & _ & H).
    apply bind_ok in H as (hr & Hhr & H). injection H as <- <- <-.
    unfold new_HeartRateTarget in Hhr. apply checked_ok in Hhr as [Hhr ->].
    simpl. rewrite Hhr. repeat split; discriminate.
  - destruct (Re.search false PACE_PATTERN _) as [g|].
    + intros H. apply bind_ok in H as (pt & Hpt & H). injection H as <- <- <-.
      apply from_pace_string_ok in Hpt. simpl. rewrite Hpt.
      repeat split; discriminate.
    + intros H; injection H as <- <- <-; repeat split; reflexivity.
Qed.

Lemma infer_step_type_not_repeat (text : str) :
  _infer_step_type text <> REPEAT.
Proof.
  unfold _infer_step_type.
  repeat match goal with
         | |- context [if ?b then _ else _] => destruct b
         end; discriminate.
Qed.

Lemma parse_duration_kind (value : PrimFloat.float) (unit : str) (d : DurationType * PrimFloat.float) :
  _parse_duration value unit = Ok d ->
  snd d = value /\ fst d <> DURATION_OPEN.
Proof.
  unfold _parse_duration.
  repeat match goal with
         | |- context [if ?b then _ else _] => destruct b
         end; intros H; try discriminate; injection H as <-;
    split; (reflexivity || discriminate).
Qed.

(** A leaf step as a builder returns it. *)
Definition built_leaf (st : StepType) (s : WorkoutStep) : Prop :=
  Step.valid s = true /\ step_type s = st /\ repeat_steps s = None /\
  repeat_count s = None.

Lemma leaf_step_built (st : StepType) (dt : DurationType) (v : PrimFloat.float)
    (u : str) (t : target) (s : WorkoutStep) :
  Step.no_errors PaceTarget_errors (snd (fst t)) = true ->
  Step.no_errors HeartRateTarget_errors (snd t) = true ->
  leaf_step st dt v u t = Ok s ->
  built_leaf st s /\ target_type s = fst (fst t) /\
  duration_type s = dt /\ duration_value s = Some v /\
  duration_unit s = Some u.
Proof.
  destruct t as [[k p] h]. simpl. intros Hp Hh H.
  unfold Step.new in H. apply checked_ok in H as [He ->].
  unfold built_leaf. rewrite valid_unfold, He. unfold children.
  cbn [pace_target hr_target cadence_target repeat_steps step_type
       target_type duration_type duration_value duration_unit repeat_count].
  rewrite Hp, Hh. repeat split.
Qed.

Lemma open_step_built (st : StepType) (s : WorkoutStep) :
  Step.new (step_fields st DURATION_OPEN TARGET_OPEN) = Ok s ->
  built_leaf st s /\ duration_type s = DURATION_OPEN /\
  target_type s = TARGET_OPEN.
Proof.
  intros H. unfold Step.new in H. apply checked_ok in H as [He ->].
  unfold built_leaf. rewrite valid_unfold, He. simpl. repeat split.
Qed.

(** The steps [_parse_step] returns: a validated leaf step that is not a
    Repeat, or a validated Repeat with Open duration and target whose
    children are one Interval leaf, or an Interval leaf and a Recovery
    leaf that has no target. *)
Definition built (s : WorkoutStep) : Prop :=
  Step.valid s = true /\
  ((step_type s <> REPEAT /\ repeat_steps s = None) \/
   (step_type s = REPEAT /\ duration_type s = DURATION_OPEN /\
    target_type s = TARGET_OPEN /\
    exists work, built_leaf INTERVAL work /\
      (repeat_steps s = Some [work] \/
       exists recovery, built_leaf RECOVERY recovery /\
         target_type recovery = TARGET_OPEN /\
         repeat_steps s = Some [work; recovery]))).

Lemma built_of_leaf (st : StepType) (s : WorkoutStep) :
  st <> REPEAT -> built_leaf st s -> built s.
Proof.
  intros Hst (Hv & Ht & Hr & _). split; [exact Hv|]. left. now rewrite Ht.
Qed.

Lemma measured_step_built (st : StepType) (value : PrimFloat.float) (unit : str)
    (target_str : option str) (s : WorkoutStep) :
  bind (_parse_duration value unit)
    (fun d => bind (_parse_target target_str)
                (fun t => leaf_step st (fst d) (snd d) unit t)) = Ok s ->
  built_leaf st s.
Proof.
  intros H. apply bind_ok in H as (d & _ & H).
  apply bind_ok in H as ([[k p] h] & Ht & H).
  apply parse_target_payloads in Ht as (Hp & Hh & _).
  now apply leaf_step_built in H as [H _].
Qed.

Lemma parse_interval_step_built (m : Re.groups) (s : WorkoutStep) :
  _parse_interval_step m = Ok s -> built s.
Proof.
  unfold _parse_interval_step. intros H.
  apply bind_ok in H as (n & _ & H). apply bind_ok in H as (v & _ & H).
  cbv zeta in H.
  apply bind_ok in H as (d & _ & H).
  apply bind_ok in H as ([[k p] h] & Ht & H).
  apply parse_target_payloads in Ht as (Hp & Hh & _).
  apply bind_ok in H as (work & Hw & H).
  apply leaf_step_built in Hw as [Hw _]; [|assumption|assumption].
  apply bind_ok in H as (l & Hl & H).
  unfold Step.new in H. apply checked_ok in H as [He ->].
  assert (Hshape : l = [work] \/
            exists recovery, built_leaf RECOVERY recovery /\
              target_type recovery = TARGET_OPEN /\ l = [work; recovery]).
  { destruct (Re.group 5 m) as [[|c r]|].
    - injection Hl as <-. now left.
    - apply bind_ok in Hl as (rv & _ & Hl).
      apply bind_ok in Hl as (rd & _ & Hl).
      apply bind_ok in Hl as (recovery & Hr & Hl). injection Hl as <-.
      apply leaf_step_built in Hr as (Hr & Hk & _); [|reflexivity|reflexivity].
      right. exists recovery. auto.
    - injection Hl as <-. now left. }
  split.
  - rewrite valid_unfold, He. simpl. unfold children. simpl.
    destruct Hw as (Hwv & _).
    destruct Hshape as [->|(recovery & (Hrv & _) & _ & ->)]; simpl.
    + now rewrite Hwv.
    + now rewrite Hwv, Hrv.
  - right. simpl. repeat split. exists work. split; [exact Hw|].
    destruct Hshape as [->|(recovery & Hr & Hk & ->)]; [now left|].
    right. exists recovery. auto.
Qed.

Lemma parse_step_built (part : str) (index : nat) (s : WorkoutStep) :
  _parse_step part index = Ok s -> built s.
Proof.
  unfold _parse_step.
  destruct (Re.match_ true interval_pattern part) as [m|];
    [apply parse_interval_step_built|].
  destruct (Re.match_ true simple_step_pattern part) as [m|].
  { unfold _parse_simple_step. intros H.
    apply bind_ok in H as (v & _ & H). cbv zeta in H.
    apply measured_step_built in H.
    exact (built_of_leaf _ _ (infer_step_type_not_repeat _) H). }
  destruct (Re.match_ true target_first_pattern part) as [m|].
  { unfold _parse_target_first_step. cbv zeta. intros H.
    apply bind_ok in H as (v & _ & H). cbv zeta in H.
    apply measured_step_built in H.
    exact (built_of_leaf _ _ (infer_step_type_not_repeat _) H). }
  destruct (Re.match_ true duration_only_pattern part) as [m|].
  { unfold _parse_duration_only_step. intros H.
    apply bind_ok in H as (v & _ & H). cbv zeta in H.
    apply measured_step_built in H.
    apply (built_of_leaf INTERVAL); [discriminate|exact H]. }
  destruct (Re.match_ true open_step_pattern part) as [m|]; [|discriminate].
  unfold _parse_open_step. cbv zeta. intros H.
  apply open_step_built in H as [H _].
  exact (built_of_leaf _ _ (infer_step_type_not_repeat _) H).
Qed.

Lemma parse_parts_built (parts : list str) :
  forall i l, parse_parts parts i = Ok l ->
  Forall built l /\ length l = length parts.
Proof.
  induction parts as [|part rest IH]; simpl; intros i l H.
  - injection H as <-. split; [constructor|reflexivity].
  - destruct (_parse_step part i) as [s|e] eqn:E; [|discriminate].
    apply bind_ok in H as (l' & Hl & H). injection H as <-.
    destruct (IH _ _ Hl) as [HF Hlen]. split.
    + constructor; [exact (parse_step_built _ _ _ E)|exact HF].
    + simpl. now rewrite Hlen.
Qed.

Lemma parse_ok (text : str) (w : Workout) :
  parse text = Ok w ->
  exists l, parse_parts (_split_workout (_normalize_text text)) 0 = Ok l /\
            l <> [] /\
            w = {| name := "Untitled Workout"; sport_type := "running";
                   steps := l; scheduled_date := None; notes := None |}.
Proof.
  unfold parse. destruct (_ || _); [discriminate|].
  destruct (_split_workout (_normalize_text text)) as [|p ps] eqn:E;
    [discriminate|].
  change (negb (nonempty (p :: ps))) with false. cbv iota.
  intros H. apply bind_ok in H as (l & Hl & H).
  exists l. split; [exact Hl|].
  destruct (parse_parts_built _ _ _ Hl) as [_ Hlen].
  split; [destruct l; [discriminate|discriminate]|].
  unfold WorkoutM.new in H. apply checked_ok in H as [_ ->].
  reflexivity.
Qed.

(** A workout that [parse] returns passes validation, step by step; it is
    named "Untitled Workout", its sport is "running", it has neither date
    nor notes, and it has one top-level step for each segment of the
    normalized text, at least one. *)
Theorem parse_returns_valid_workout (text : str) (w : Workout)
    (H : parse text = Ok w) :
  WorkoutM.valid w = true /\
  name w = lit "Untitled Workout" /\ sport_type w = lit "running" /\
  scheduled_date w = None /\ notes w = None /\
  length (steps w) = length (_split_workout (_normalize_text text)) /\
  (1 <= length (steps w))%nat.
Proof.
  apply parse_ok in H as (l & Hl & Hne & ->).
  destruct (parse_parts_built _ _ _ Hl) as [HF Hlen]. simpl.
  repeat split; try exact Hlen.
  - unfold WorkoutM.valid. simpl. apply andb_true_iff. split.
    + destruct l; [congruence|reflexivity].
    + apply forallb_forall. intros s Hs.
      rewrite Forall_forall in HF. now destruct (HF s Hs).
  - destruct l; [congruence|simpl; lia].
Qed.

Lemma parse_returns_valid_workout_witness :
  exists w, parse "1km warmup @ 5:30, 3x 1km @ 4:45 + 2min rest" = Ok w /\
            WorkoutM.valid w = true /\ length (steps w) = 2.
Proof.
  destruct (parse "1km warmup @ 5:30, 3x 1km @ 4:45 + 2min rest")
    as [w|e] eqn:E.
  - exists w. split; [reflexivity|].
    destruct (parse_returns_valid_workout _ w E) as (Hv & _ & _ & _ & _ & Hl & _).
    split; [exact Hv|]. rewrite Hl. vm_compute. reflexivity.
  - exfalso. vm_compute in E. discriminate E.
Defined.

(** In a workout that [parse] returns, repeat groups are one level deep:
    a Repeat has Open duration and target and holds one Interval step, or
    an Interval step and a Recovery step without target, and none of these
    children is a Repeat or has children of its own. *)
Theorem parse_nests_one_level (text : str) (w : Workout)
    (H : parse text = Ok w) :
  forall s, In s (steps w) -> step_type s = REPEAT ->
  duration_type s = DURATION_OPEN /\ target_type s = TARGET_OPEN /\
  (exists work,
     step_type work = INTERVAL /\
     (children s = [work] \/
      exists recovery,
        step_type recovery = RECOVERY /\
        target_type recovery = TARGET_OPEN /\
        children s = [work; recovery])) /\
  (forall c, In c (children s) ->
             step_type c <> REPEAT /\ repeat_steps c = None).
Proof.
  apply parse_ok in H as (l & Hl & _ & ->). simpl.
  destruct (parse_parts_built _ _ _ Hl) as [HF _].
  intros s Hs Hk. rewrite Forall_forall in HF.
  destruct (HF s Hs) as [_ [[Hn _]|(_ & Hd & Ht & work & Hw & Hc)]];
    [congruence|].
  split; [exact Hd|]. split; [exact Ht|].
  destruct Hw as (_ & Hwk & Hwr & _). unfold children.
  destruct Hc as [->|(recovery & (_ & Hrk & Hrr & _) & Hrt & ->)].
  - split.
    + exists work. split; [exact Hwk|now left].
    + intros c [<-|[]]. rewrite Hwk. split; [discriminate|exact Hwr].
  - split.
    + exists work. split; [exact Hwk|]. right. exists recovery. auto.
    + intros c [<-|[<-|[]]].
      * rewrite Hwk. split; [discriminate|exact Hwr].
      * rewrite Hrk. split; [discriminate|exact Hrr].
Qed.

Lemma parse_nests_one_level_witness :
  exists w, parse "3x 1km @ 4:45 + 2min rest" = Ok w /\
  forall s, In s (steps w) -> step_type s = REPEAT ->
  forall c, In c (children s) -> step_type c <> REPEAT.
Proof.
  destruct (parse "3x 1km @ 4:45 + 2min rest") as [w|e] eqn:E.
  - exists w. split; [reflexivity|]. intros s Hs Hk c Hc.
    destruct (parse_nests_one_level _ w E s Hs Hk) as (_ & _ & _ & Hch).
    now destruct (Hch c Hc).
  - exfalso. vm_compute in E. discriminate E.
Defined.

End ParseResults.

(** ** How [parse] fails, and [can_parse] *)

Section ParseFailures.

Import Py RegexWorkoutParser.

Lemma bind_err {A B} (x : result A) (f : A -> result B) (e : error) :
  bind x f = Err e -> x = Err e \/ exists a, x = Ok a /\ f a = Err e.
Proof. destruct x as [a|e0]; simpl; intros H; [eauto|left; congruence]. Qed.

(** The errors raised while a matched segment is turned into a step. *)
Definition step_failure (e : error) : bool :=
  match e with
  | CannotParseStep _ | ErrorParsingStep _ _ | EmptyDescription
  | NoStepsFound => false
  | _ => true
  end.

Lemma checked_failure {A} (model : string) (errs : A -> list string)
    (a : A) (e : error) :
  checked model errs a = Err e -> step_failure e = true.
Proof.
  unfold checked. destruct (errs a); [discriminate|].
  intros H. injection H as <-. reflexivity.
Qed.

Lemma from_pace_string_failure (pace : str) (e : error) :
  PaceTargetM.from_pace_string pace = Err e -> step_failure e = true.
Proof.
  unfold PaceTargetM.from_pace_string.
  destruct (negb _); [intros H; injection H as <-; reflexivity|].
  destruct (split ":" (strip pace)) as [|p0 [|p1 [|p2 l]]];
    try (intros H; injection H as <-; reflexivity).
  destruct (int p0), (int p1);
    try (intros H; injection H as <-; reflexivity).
  destruct (60 <=? z0)%Z; [intros H; injection H as <-; reflexivity|].
  apply checked_failure.
Qed.

Lemma to_int_failure (s : str) (e : error) :
  to_int s = Err e -> step_failure e = true.
Proof.
  unfold to_int. destruct (int s); [discriminate|].
  intros H. injection H as <-. reflexivity.
Qed.

Lemma to_float_failure (s : str) (e : error) :
  to_float s = Err e -> step_failure e = true.
Proof.
  unfold to_float. destruct (Py.float s); [discriminate|].
  intros H. injection H as <-. reflexivity.
Qed.

Lemma parse_duration_failure (v : PrimFloat.float) (u : str) (e : error) :
  _parse_duration v u = Err e -> step_failure e = true.
Proof.
  unfold _parse_duration.
  repeat match goal with
         | |- context [if ?b then _ else _] => destruct b
         end; try discriminate.
  intros H. injection H as <-. reflexivity.
Qed.

Lemma parse_target_failure (t : option str) (e : error) :
  _parse_target t = Err e -> step_failure e = true.
Proof.
  unfold _parse_target. destruct t as [[|c l]|]; try discriminate.
  destruct (Re.search true HR_PATTERN _).
  - intros H. apply bind_err in H as [H|(n & _ & H)];
      [exact (to_int_failure _ _ H)|].
    apply bind_err in H as [H|(h & _ & H)]; [|discriminate].
    exact (checked_failure _ _ _ _ H).
  - destruct (Re.search false PACE_PATTERN _); [|discriminate].
    intros H. apply bind_err in H as [H|(p & _ & H)]; [|discriminate].
    exact (from_pace_string_failure _ _ H).
Qed.

Lemma leaf_step_failure (st : StepType) (dt : DurationType)
    (v : PrimFloat.float) (u : str) (t : target) (e : error) :
  leaf_step st dt v u t = Err e -> step_failure e = true.
Proof. destruct t as [[k p] h]. apply checked_failure. Qed.

Lemma measured_step_failure (st : StepType) (value : PrimFloat.float)
    (unit : str) (target_str : option str) (e : error) :
  bind (_parse_duration value unit)
    (fun d => bind (_parse_target target_str)
                (fun t => leaf_step st (fst d) (snd d) unit t)) = Err e ->
  step_failure e = true.
Proof.
  intros H. apply bind_err in H as [H|(d & _ & H)];
    [exact (parse_duration_failure _ _ _ H)|].
  apply bind_err in H as [H|(t & _ & H)];
    [exact (parse_target_failure _ _ H)|].
  exact (leaf_step_failure _ _ _ _ _ _ H).
Qed.

Lemma parse_interval_step_failure (m : Re.groups) (e : error) :
  _parse_interval_step m = Err e -> step_failure e = true.
Proof.
  unfold _parse_interval_step. intros H.
  apply bind_err in H as [H|(n & _ & H)]; [exact (to_int_failure _ _ H)|].
  apply bind_err in H as [H|(v & _ & H)]; [exact (to_float_failure _ _ H)|].
  cbv zeta in H.
  apply bind_err in H as [H|(d & _ & H)];
    [exact (parse_duration_failure _ _ _ H)|].
  apply bind_err in H as [H|(t & _ & H)];
    [exact (parse_target_failure _ _ H)|].
  apply bind_err in H as [H|(work & _ & H)];
    [exact (leaf_step_failure _ _ _ _ _ _ H)|].
  apply bind_err in H as [H|(l & _ & H)];
    [|exact (checked_failure _ _ _ _ H)].
  destruct (Re.group 5 m) as [[|c r]|]; try discriminate.
  apply bind_err in H as [H|(rv & _ & H)]; [exact (to_float_failure _ _ H)|].
  apply bind_err in H as [H|(rd & _ & H)];
    [exact (parse_duration_failure _ _ _ H)|].
  apply bind_err in H as [H|(rs & _ & H)]; [|discriminate].
  exact (leaf_step_failure _ _ _ _ _ _ H).
Qed.

(** [_parse_step] by cases: no rule matches and the error is the
    cannot-parse error of the segment, or a rule matches and the outcome
    is a step or an error raised while building it. *)
Lemma parse_step_cases (part : str) (index : nat) :
  (_can_parse_part part = false /\
   _parse_step part index = Err (CannotParseStep part)) \/
  (_can_parse_part part = true /\
   match _parse_step part index with
   | Ok _ => True
   | Err e => step_failure e = true
   end).
Proof.
  unfold _can_parse_part, matches, _parse_step.
  destruct (Re.match_ true interval_pattern part) as [m|].
  { right. split; [reflexivity|].
    destruct (_parse_interval_step m) eqn:E; [exact I|].
    exact (parse_interval_step_failure _ _ E). }
  destruct (Re.match_ true simple_step_pattern part) as [m|].
  { right. split; [reflexivity|].
    destruct (_parse_simple_step m) eqn:E; [exact I|].
    unfold _parse_simple_step in E.
    apply bind_err in E as [E|(v & _ & E)]; [exact (to_float_failure _ _ E)|].
    exact (measured_step_failure _ _ _ _ _ E). }
  destruct (Re.match_ true target_first_pattern part) as [m|].
  { right. split; [reflexivity|].
    destruct (_parse_target_first_step m) eqn:E; [exact I|].
    unfold _parse_target_first_step in E. cbv zeta in E.
    apply bind_err in E as [E|(v & _ & E)]; [exact (to_float_failure _ _ E)|].
    exact (measured_step_failure _ _ _ _ _ E). }
  destruct (Re.match_ true duration_only_pattern part) as [m|].
  { right. split; [reflexivity|].
    destruct (_parse_duration_only_step m) eqn:E; [exact I|].
    unfold _parse_duration_only_step in E.
    apply bind_err in E as [E|(v & _ & E)]; [exact (to_float_failure _ _ E)|].
    exact (measured_step_failure _ _ _ _ _ E). }
  destruct (Re.match_ true open_step_pattern part) as [m|].
  { right. split; [reflexivity|].
    destruct (_parse_open_step m) eqn:E; [exact I|].
    exact (checked_failure _ _ _ _ E). }
  left. split; reflexivity.
Qed.

Lemma parse_parts_can_parse (parts : list str) :
  forall i l, parse_parts parts i = Ok l ->
  forallb _can_parse_part parts = true.
Proof.
  induction parts as [|part rest IH]; simpl; intros i l H; [reflexivity|].
  destruct (parse_step_cases part i) as [[_ E]|[Hc _]].
  - rewrite E in H. discriminate.
  - rewrite Hc. simpl.
    destruct (_parse_step part i); [|discriminate].
    apply bind_ok in H as (l' & Hl & _). exact (IH _ _ Hl).
Qed.

(** [_can_parse_part] tells exactly whether [_parse_step] fails with the
    cannot-parse error, and [can_parse] holds of every text that [parse]
    accepts.  ([can_parse] also holds of texts that [parse] refuses: see
    the examples below.) *)
Theorem can_parse_agrees_with_parse :
  (forall part index,
     _can_parse_part part = false <->
     _parse_step part index = Err (CannotParseStep part)) /\
  (forall part index part',
     _parse_step part index = Err (CannotParseStep part') -> part' = part) /\
  (forall text w, parse text = Ok w -> can_parse text = true).
Proof.
  split; [|split].
  - intros part index.
    destruct (parse_step_cases part index) as [[Hc E]|[Hc E]].
    + now rewrite Hc, E.
    + rewrite Hc. split; [discriminate|]. intros H. rewrite H in E.
      discriminate.
  - intros part index part' H.
    destruct (parse_step_cases part index) as [[_ E]|[_ E]].
    + rewrite E in H. now injection H.
    + rewrite H in E. discriminate.
  - intros text w H. unfold can_parse.
    pose proof (parse_ok text w H) as (l & Hl & _).
    unfold parse in H. destruct (_ || _); [discriminate|].
    exact (parse_parts_can_parse _ _ _ Hl).
Qed.

Example can_parse_without_steps :
  can_parse ";; ," = true /\ parse ";; ," = Err NoStepsFound.
Proof. split; vm_compute; reflexivity. Qed.

Example can_parse_with_bad_pace :
  can_parse "1km @ 5:75" = true /\
  parse "1km @ 5:75" = Err (ErrorParsingStep "1km @ 5:75" (PaceSeconds 75)).
Proof. split; vm_compute; reflexivity. Qed.

Lemma parse_parts_failure (parts : list str) :
  forall i e, parse_parts parts i = Err e ->
  exists before part after e',
    parts = before ++ part :: after /\
    Forall (fun q => exists j, is_ok (_parse_step q j) = true) before /\
    _parse_step part (i + length before) = Err e' /\
    e = ErrorParsingStep part e'.
Proof.
  induction parts as [|part rest IH]; simpl; intros i e H; [discriminate|].
  destruct (_parse_step part i) as [s|e0] eqn:E.
  - apply bind_err in H as [H|(l & _ & H)]; [|discriminate].
    destruct (IH _ _ H) as (before & q & after & e' & -> & HF & Hq & ->).
    exists (part :: before), q, after, e'. repeat split.
    + constructor; [|exact HF]. exists i. now rewrite E.
    + simpl. now replace (i + S (length before)) with (S i + length before) by lia.
  - injection H as <-. exists [], part, rest, e0.
    repeat split; [constructor|]. simpl. now rewrite Nat.add_0_r.
Qed.

(** The ways [parse] fails.  It raises the empty-description error, the
    no-steps error, or the error of the first segment that does not give a
    step, wrapped with the text of that segment; the segments before it
    all gave steps.  Building the workout from the steps never fails. *)
Theorem parse_failures (text : str) (e : error)
    (H : parse text = Err e) :
  e = EmptyDescription \/ e = NoStepsFound \/
  exists before part after e',
    _split_workout (_normalize_text text) = before ++ part :: after /\
    Forall (fun q => exists j, is_ok (_parse_step q j) = true) before /\
    _parse_step part (length before) = Err e' /\
    e = ErrorParsingStep part e'.
Proof.
  unfold parse in H.
  destruct (_ || _); [left; congruence|].
  destruct (_split_workout (_normalize_text text)) as [|p ps] eqn:E;
    [right; left; simpl in H; congruence|].
  change (negb (nonempty (p :: ps))) with false in H. cbv iota in H.
  right. right.
  apply bind_err in H as [H|(l & Hl & H)].
  - exact (parse_parts_failure _ _ _ H).
  - exfalso. destruct (parse_parts_built _ _ _ Hl) as [_ Hlen].
    destruct l as [|s l]; [discriminate|].
    vm_compute in H. discriminate.
Qed.

Lemma parse_failures_witness :
  exists e', parse "1km warmup, 2 furlongs, cooldown"
             = Err (ErrorParsingStep "2 furlongs" e').
Proof.
  destruct (parse "1km warmup, 2 furlongs, cooldown") as [w|e] eqn:E.
  - exfalso. vm_compute in E. discriminate E.
  - destruct (parse_failures _ e E) as [->|[->|(b & p & a & e' & _ & _ & _ & ->)]].
    + exfalso. vm_compute in E. discriminate E.
    + exfalso. vm_compute in E. discriminate E.
    + exists e'. vm_compute in E. injection E as <- _. reflexivity.
Defined.

End ParseFailures.

(** ** Segments ([_split_workout]) *)

Section SegmentShape.

Import Py RegexWorkoutParser.

Lemma split_pieces_without_sep (sep : ascii) (s : str) :
  Forall (fun p => contains_char sep p = false) (split sep s).
Proof.
  induction s as [|c s IH]; simpl; [repeat constructor|].
  destruct (Ascii.eqb_spec c sep) as [->|Hne].
  - constructor; [reflexivity|exact IH].
  - destruct (split sep s) as [|p ps]; [repeat constructor; simpl|].
    + destruct (Ascii.eqb_spec sep c); [congruence|reflexivity].
    + inversion IH as [|? ? Hp Hps]; subst. constructor; [|exact Hps].
      simpl. rewrite Hp. destruct (Ascii.eqb_spec sep c); [congruence|reflexivity].
Qed.

Lemma strip_without (c : ascii) (s : str) :
  contains_char c s = false -> contains_char c (strip s) = false.
Proof.
  intros H. destruct (strip_decompose s) as (w & e & Hs).
  rewrite Hs in H. rewrite !contains_char_app in H.
  apply orb_false_iff in H as [_ H]. now apply orb_false_iff in H as [H _].
Qed.

(** Every segment is non-empty, has no white space at either end, and
    holds no comma; a text without a comma is one segment, or none when it
    is blank. *)
Theorem segments_shape (text : str) :
  (forall seg, In seg (_split_workout text) ->
     seg <> [] /\ strip seg = seg /\ contains_char "," seg = false) /\
  (contains_char "," text = false ->
   _split_workout text = if nonempty (strip text) then [strip text] else []).
Proof.
  split.
  - intros seg H. unfold _split_workout in H.
    apply in_map_iff in H as (p & <- & Hp).
    apply filter_In in Hp as [Hp Hne]. repeat split.
    + intros E. rewrite E in Hne. discriminate.
    + apply trimmed_strip_id, strip_trimmed.
    + apply strip_without.
      pose proof (split_pieces_without_sep "," text) as HF.
      rewrite Forall_forall in HF. exact (HF p Hp).
  - intros H. unfold _split_workout. rewrite (split_no_sep "," text H).
    simpl. now destruct (nonempty (strip text)).
Qed.

End SegmentShape.

(** ** The characters of the normalized text *)

Section NormalizedCharacters.

Import Py Re RegexWorkoutParser.

Variable ic : bool.

(** A set of characters, as a test. *)
Variable ok : ascii -> bool.

Definition groups_within (g : groups) : Prop :=
  Forall (fun e => forallb ok (snd e) = true) g.

Definition pieces_within (t : list piece) : Prop :=
  Forall (fun p => match p with
                   | Text x => forallb ok x = true
                   | Ref _ => True
                   end) t.

(** The continuation is reached only with text and groups drawn from the
    set. *)
Definition reaches {A} (k : cont A) (x : A) : Prop :=
  exists p s g, forallb ok s = true /\ groups_within g /\ k p s g = Some x.

Lemma orelse_cases {A} (a b : option A) (x : A) :
  orelse a b = Some x -> a = Some x \/ b = Some x.
Proof. destruct a; simpl; auto. Qed.

Lemma forallb_firstn {A} (f : A -> bool) (n : nat) (l : list A) :
  forallb f l = true -> forallb f (firstn n l) = true.
Proof.
  revert n. induction l as [|a l IH]; intros [|n] H; simpl; auto.
  simpl in H. apply andb_true_iff in H as [Ha Hl]. now rewrite Ha, IH.
Qed.

Lemma rep_within {A} (c : cls) (gr : bool) (k : cont A) (x : A) :
  forall s lo hi p g,
  forallb ok s = true -> groups_within g ->
  rep ic c gr s lo hi p g k = Some x -> reaches k x.
Proof.
  induction s as [|a s IH]; intros lo hi p g Hs Hg H; simpl in H.
  - destruct lo; [|discriminate]. exists p, [], g. auto.
  - pose proof Hs as Hs'. simpl in Hs'. apply andb_true_iff in Hs' as [_ Hs'].
    assert (Hstop : match lo with O => k p (a :: s) g | S _ => None end = Some x
                    -> reaches k x).
    { destruct lo; [|discriminate]. intros E. exists p, (a :: s), g. auto. }
    destruct (cls_mem ic c a && allows hi); [|exact (Hstop H)].
    destruct gr; apply orelse_cases in H as [H|H]; eauto.
Qed.

Lemma run_within (r : regex) :
  forall A (k : cont A) (x : A) p s g,
  forallb ok s = true -> groups_within g ->
  run ic r p s g k = Some x -> reaches k x.
Proof.
  induction r as [|c|a IHa b IHb|a IHa b IHb|a IHa|c lo hi gr|n a IHa| | |];
    intros A k x p s g Hs Hg H; simpl in H.
  - exists p, s, g. auto.
  - destruct s as [|y s]; [discriminate|].
    destruct (cls_mem ic c y); [|discriminate].
    simpl in Hs. apply andb_true_iff in Hs as [_ Hs]. exists (Some y), s, g. auto.
  - apply IHa in H as (p' & s' & g' & Hs' & Hg' & H); auto.
    exact (IHb _ _ _ _ _ _ Hs' Hg' H).
  - apply orelse_cases in H as [H|H]; eauto.
  - apply orelse_cases in H as [H|H]; [eauto|]. exists p, s, g. auto.
  - exact (rep_within c gr k x _ _ _ _ _ Hs Hg H).
  - apply IHa in H as (p' & s' & g' & Hs' & Hg' & H); auto.
    exists p', s', ((n, firstn (length s - length s') s) :: g').
    repeat split; auto. constructor; [|exact Hg'].
    now apply forallb_firstn.
  - destruct p; [discriminate|]. exists None, s, g. auto.
  - exists p, s, g. split; [exact Hs|]. split; [exact Hg|].
    destruct s as [|y [|z s]]; try exact H; try discriminate.
    + destruct y as [[] [] [] [] [] [] [] []]; try discriminate; exact H.
    + destruct y as [[] [] [] [] [] [] [] []]; discriminate.
  - destruct (xorb _ _); [|discriminate]. exists p, s, g. auto.
Qed.

Lemma match_at_within (r : regex) (p : option ascii) (s : str) (n : nat)
    (g : groups) :
  forallb ok s = true -> match_at ic r p s = Some (n, g) -> groups_within g.
Proof.
  intros Hs H. unfold match_at in H.
  apply run_within in H as (p' & s' & g' & _ & Hg & H); auto; [|constructor].
  now injection H as _ <-.
Qed.

Lemma group_within (n : nat) (g : groups) (t : str) :
  groups_within g -> group n g = Some t -> forallb ok t = true.
Proof.
  induction 1 as [|[m u] g Hu _ IH]; simpl; [discriminate|].
  destruct (m =? n)%nat; [|exact IH]. intros H. now injection H as <-.
Qed.

Lemma expand_within (t : list piece) (g : groups) :
  pieces_within t -> groups_within g -> forallb ok (expand t g) = true.
Proof.
  intros Ht Hg. unfold expand.
  induction Ht as [|q t Hq _ IH]; simpl; [reflexivity|].
  rewrite forallb_app, IH, andb_true_r.
  destruct q as [x|n]; [exact Hq|].
  destruct (group n g) eqn:E; [|reflexivity].
  exact (group_within _ _ _ Hg E).
Qed.

(** A substitution whose replacement is drawn from the set keeps the text
    within the set. *)
Lemma sub_from_within (r : regex) (t : list piece) :
  pieces_within t ->
  forall s p skip,
  forallb ok s = true -> forallb ok (sub_from ic r t p s skip) = true.
Proof.
  intros Ht. induction s as [|a s IH]; intros p skip Hs; [reflexivity|].
  pose proof Hs as Hs'. simpl in Hs'. apply andb_true_iff in Hs' as [Ha Hs'].
  simpl. destruct skip as [|n]; [|now apply IH].
  destruct (match_at ic r p (a :: s)) as [[[|n] g]|] eqn:E.
  - simpl. now rewrite Ha, IH.
  - rewrite forallb_app, IH by assumption. rewrite andb_true_r.
    apply expand_within; [exact Ht|]. exact (match_at_within _ _ _ _ _ Hs E).
  - simpl. now rewrite Ha, IH.
Qed.

End NormalizedCharacters.

Section NormalizedText.

Import Py Re RegexWorkoutParser.

(** The characters a normalized text is made of: lower case, and neither
    [;] nor newline. *)
Definition normal_char (c : ascii) : bool :=
  Ascii.eqb (lower_char c) c && negb (Ascii.eqb c ";")
  && negb (Ascii.eqb c "010").

Lemma collapse_normal (s : str) :
  lowered s -> forall b, forallb normal_char (collapse b s) = true.
Proof.
  induction 1 as [|x s Hx _ IH]; intros b; [reflexivity|].
  cbn [collapse]. destruct (is_sep x) eqn:E.
  - destruct b; [apply IH|]. simpl. apply IH.
  - simpl. rewrite IH, andb_true_r. unfold normal_char.
    rewrite Hx, Ascii.eqb_refl. simpl.
    unfold is_sep in E. simpl in E.
    apply orb_false_iff in E as [E1 E]. apply orb_false_iff in E as [_ E].
    apply orb_false_iff in E as [E3 _].
    now rewrite E1, E3.
Qed.

Lemma rewrites_normal (l : list rewrite) :
  Forall (fun rw => pieces_within normal_char (snd rw)) l ->
  forall s, forallb normal_char s = true ->
  forallb normal_char (fold_left apply_rewrite l s) = true.
Proof.
  induction 1 as [|rw l Hrw _ IH]; intros s Hs; [exact Hs|].
  simpl. apply IH. unfold apply_rewrite, sub.
  now apply sub_from_within.
Qed.

(** The normalized text is in lower case and holds neither [;] nor a
    newline: the comma is the only separator left for [_split_workout]. *)
Theorem normalized_text_characters (text : str) :
  Forall (fun c => lower_char c = c /\ c <> ";"%char /\ c <> "010"%char)
    (_normalize_text text).
Proof.
  assert (H : forallb normal_char (_normalize_text text) = true).
  { change (_normalize_text text)
      with (fold_left apply_rewrite (tl normalize_rules)
              (canonical_separators text)).
    apply rewrites_normal.
    - repeat constructor.
    - rewrite canonical_separators_eq. apply collapse_normal.
      apply lowered_strip, lowered_lower. }
  rewrite forallb_forall in H. apply Forall_forall. intros c Hc.
  specialize (H c Hc). unfold normal_char in H.
  apply andb_true_iff in H as [H H3]. apply andb_true_iff in H as [H1 H2].
  apply Ascii.eqb_eq in H1. repeat split; [exact H1| |].
  - intros ->. discriminate.
  - intros ->. discriminate.
Qed.

End NormalizedText.

(** ** What a match captures *)

Section Captures.

Import Py Re.

Variable ic : bool.








End Captures.

(** ** The groups of the five patterns *)

Section PatternGroups.

Import Py Re RegexWorkoutParser.




(** The unit spellings of the two unit patterns. *)
Definition unit_spellings : list str :=
  [lit "km"; lit "k"; lit "kilometer"; lit "kilometers"; lit "mi";
   lit "mile"; lit "miles"; lit "m"; lit "meter"; lit "meters";
   lit "min"; lit "minute"; lit "minutes"; lit "sec"; lit "second";
   lit "seconds"; lit "s"; lit "hr"; lit "hour"; lit "hours"; lit "h"].




















End PatternGroups.

(** ** The errors of a segment *)

Section SegmentErrors.

Import Py Re RegexWorkoutParser.








Example each_error_occurs :
  _parse_step "gobbledygook" 0 = Err (CannotParseStep "gobbledygook") /\
  _parse_step "1km @ 5:75" 0 = Err (PaceSeconds 75) /\
  _parse_step "0km warmup" 0
  = Err (ValidationError "WorkoutStep" ["duration_value"]) /\
  _parse_step "100x 1km" 0
  = Err (ValidationError "WorkoutStep" ["repeat_count"]) /\
  _parse_step "1km @ 250 bpm" 0
  = Err (ValidationError "HeartRateTarget" ["min_bpm"]).
Proof. repeat split; vm_compute; reflexivity. Qed.

End SegmentErrors.

(** ** The constructors of steps and workouts *)

Section Constructors.

Import Py.

Lemma errors_nil_iff (self : WorkoutStep) :
  Step.errors self = [] <->
  Step.field_errors self = [] /\ Step.validate_duration_value self = None /\
  Step.validate_target_consistency self = None /\
  Step.validate_repeat_fields self = None.
Proof.
  split; [apply errors_nil|].
  intros (H1 & H2 & H3 & H4). unfold Step.errors. now rewrite H1, H2, H3, H4.
Qed.

Lemma field_errors_nil (self : WorkoutStep) :
  Step.field_errors self = [] <->
  (forall v, duration_value self = Some v -> (0 <? v)%float = true) /\
  (forall n, repeat_count self = Some n -> (1 <= n <= 99)%Z).
Proof.
  unfold Step.field_errors.
  assert (Hd : match duration_value self with
               | Some v => if (0 <? v)%float then [] else ["duration_value"]
               | None => []
               end = [] <->
               forall v, duration_value self = Some v -> (0 <? v)%float = true).
  { destruct (duration_value self) as [v|].
    - destruct (0 <? v)%float eqn:Ev; split; try discriminate.
      + intros _ ? E. now injection E as <-.
      + reflexivity.
      + intros H. specialize (H v eq_refl). congruence.
    - split; [discriminate|reflexivity]. }
  assert (Hc : match repeat_count self with
               | Some n => if in_range 1 99 n then [] else ["repeat_count"]
               | None => []
               end = [] <->
               forall n, repeat_count self = Some n -> (1 <= n <= 99)%Z).
  { destruct (repeat_count self) as [n|].
    - destruct (in_range 1 99 n) eqn:En; split; try discriminate.
      + intros _ ? E. injection E as <-. now apply in_range_iff.
      + reflexivity.
      + intros H. specialize (H n eq_refl). apply in_range_iff in H.
        congruence.
    - split; [discriminate|reflexivity]. }
  rewrite <- Hd, <- Hc. split.
  - apply app_eq_nil.
  - intros [-> ->]. reflexivity.
Qed.

Lemma validate_duration_value_none (self : WorkoutStep) :
  Step.validate_duration_value self = None <->
  (duration_type self = DURATION_OPEN <-> duration_value self = None).
Proof.
  unfold Step.validate_duration_value, is_none, is_some.
  destruct (duration_type self), (duration_value self); simpl;
    intuition (try discriminate; try congruence).
Qed.

Lemma validate_target_consistency_none (self : WorkoutStep) :
  Step.validate_target_consistency self = None <->
  match target_type self with
  | TARGET_OPEN =>
      pace_target self = None /\ hr_target self = None /\
      cadence_target self = None
  | PACE =>
      pace_target self <> None /\ hr_target self = None /\
      cadence_target self = None
  | HEART_RATE =>
      hr_target self <> None /\ pace_target self = None /\
      cadence_target self = None
  | CADENCE =>
      cadence_target self <> None /\ pace_target self = None /\
      hr_target self = None
  end.
Proof.
  unfold Step.validate_target_consistency, is_none, is_some.
  destruct (target_type self), (pace_target self), (hr_target self),
    (cadence_target self); simpl;
    intuition (try discriminate; try congruence).
Qed.

Lemma validate_repeat_fields_none (self : WorkoutStep) :
  Step.validate_repeat_fields self = None <->
  if is_repeat self
  then repeat_count self <> None /\ children self <> []
  else repeat_count self = None /\ repeat_steps self = None.
Proof.
  unfold Step.validate_repeat_fields, is_repeat, children, is_none, is_some.
  destruct (StepType_eqb (step_type self) REPEAT),
    (repeat_count self), (repeat_steps self) as [[|c l]|]; simpl;
    intuition (try discriminate; try congruence).
Qed.

(** [WorkoutStep(...)] succeeds exactly when: the duration has a magnitude
    if and only if it is not Open, and the magnitude is above zero; a
    repeat count, if given, lies in 1..99; the payload of the target kind,
    and no other, is given; and a Repeat has a count and at least one
    child, any other step neither count nor children.  The step is stored
    as given. *)
Theorem step_constructor (self s : WorkoutStep) :
  Step.new self = Ok s <->
  s = self /\
  (duration_type self = DURATION_OPEN <-> duration_value self = None) /\
  (forall v, duration_value self = Some v -> (0 <? v)%float = true) /\
  (forall n, repeat_count self = Some n -> (1 <= n <= 99)%Z) /\
  match target_type self with
  | TARGET_OPEN =>
      pace_target self = None /\ hr_target self = None /\
      cadence_target self = None
  | PACE =>
      pace_target self <> None /\ hr_target self = None /\
      cadence_target self = None
  | HEART_RATE =>
      hr_target self <> None /\ pace_target self = None /\
      cadence_target self = None
  | CADENCE =>
      cadence_target self <> None /\ pace_target self = None /\
      hr_target self = None
  end /\
  (if is_repeat self
   then repeat_count self <> None /\ children self <> []
   else repeat_count self = None /\ repeat_steps self = None).
Proof.
  unfold Step.new. rewrite checked_ok, errors_nil_iff, field_errors_nil,
    validate_duration_value_none, validate_target_consistency_none,
    validate_repeat_fields_none.
  tauto.
Qed.

(** [Workout(...)] succeeds exactly when the name has 1 to 100 characters,
    there is at least one step, and the notes, if given, have at most 500
    characters.  Any sport is accepted; it is stored in lower case, and
    nothing else is changed. *)
Theorem workout_constructor (self w : Workout) :
  WorkoutM.new self = Ok w <->
  (1 <= length (name self) <= 100) /\ steps self <> [] /\
  (forall n, notes self = Some n -> length n <= 500) /\
  w = {| name := name self; sport_type := lower (sport_type self);
         steps := steps self; scheduled_date := scheduled_date self;
         notes := notes self |}.
Proof.
  unfold WorkoutM.new. rewrite checked_ok. unfold WorkoutM.errors.
  cbn [name steps notes].
  destruct (Nat.leb_spec 1 (length (name self))) as [H1|H1];
    destruct (Nat.leb_spec (length (name self)) 100) as [H2|H2];
    cbn [andb]; try (split; [intros [H _]; discriminate H|lia]).
  destruct (steps self) as [|s l];
    [split; [intros [H _]; discriminate H|intros (_ & H & _); congruence]|].
  destruct (notes self) as [n|].
  - destruct (Nat.leb_spec (length n) 500) as [H3|H3]; cbn [app].
    + split; [intros [_ ->]|intros (_ & _ & _ & ->)];
        repeat split; try lia; try discriminate.
      intros ? E. now injection E as <-.
    + split; [intros [H _]; discriminate H|].
      intros (_ & _ & H & _). specialize (H n eq_refl). lia.
  - cbn [app].
    split; [intros [_ ->]|intros (_ & _ & _ & ->)];
      repeat split; try lia; discriminate.
Qed.

End Constructors.

(** A number glued to the singular "kilometer" escapes the normalizer (no
    word boundary between a digit and a letter); the unit is kept as
    "kilometer", which the conversion to meters does not list, so the two
    kilometers count as two meters.  With a space the unit becomes "km". *)
Example glued_kilometer :
  option_map WorkoutM.get_total_distance_km
    (match RegexWorkoutParser.parse "2kilometer warmup" with
     | Ok w => Some w | Err _ => None end)
  = Some (Some 0.002%float) /\
  option_map WorkoutM.get_total_distance_km
    (match RegexWorkoutParser.parse "2 kilometer warmup" with
     | Ok w => Some w | Err _ => None end)
  = Some (Some 2%float).
Proof. split; vm_compute; reflexivity. Qed.

(** ** [parse], segment by segment *)

Section BySegments.

Import Py Re RegexWorkoutParser.

(** The index that [parse] passes along plays no part. *)
Lemma parse_step_index (part : str) (i j : nat) :
  _parse_step part i = _parse_step part j.
Proof. reflexivity. Qed.

Lemma parse_parts_steps (parts : list str) :
  forall i l,
  parse_parts parts i = Ok l <->
  Forall2 (fun part s => _parse_step part 0 = Ok s) parts l.
Proof.
  induction parts as [|part rest IH]; intros i l; simpl.
  - split.
    + intros H. injection H as <-. constructor.
    + intros H. inversion H. reflexivity.
  - rewrite (parse_step_index part i 0). split.
    + destruct (_parse_step part 0) as [s|e] eqn:E; [|discriminate].
      intros H. apply bind_ok in H as (l' & Hl & H). injection H as <-.
      constructor; [exact E|]. now apply (IH (S i)).
    + intros H. inversion H as [|? s ? l' Hs Hl]; subst.
      rewrite Hs. apply (IH (S i)) in Hl. now rewrite Hl.
Qed.

(** [parse] succeeds exactly when the text is not blank and every segment
    of the normalized text, of which there is at least one, gives a step
    on its own; the workout holds these steps in the order of the
    segments, under the default name and sport. *)
Theorem parse_by_segments (text : str) (w : Workout) :
  parse text = Ok w <->
  strip text <> [] /\ steps w <> [] /\
  Forall2 (fun part s => _parse_step part 0 = Ok s)
    (_split_workout (_normalize_text text)) (steps w) /\
  w = {| name := "Untitled Workout"; sport_type := "running";
         steps := steps w; scheduled_date := None; notes := None |}.
Proof.
  split.
  - intros H. pose proof (parse_ok text w H) as (l & Hl & Hne & ->).
    simpl. repeat split; try assumption.
    + intros E. unfold parse in H. rewrite E in H.
      change (negb (nonempty (@nil ascii))) with true in H.
      rewrite orb_true_r in H. discriminate.
    + now apply (parse_parts_steps _ 0).
  - intros (Hb & Hs & HF & ->). simpl in *.
    unfold parse. rewrite (input_not_blank text Hb).
    apply (parse_parts_steps _ 0) in HF.
    destruct (_split_workout (_normalize_text text)) as [|p ps] eqn:E.
    + simpl in HF. injection HF as HF. congruence.
    + change (negb (nonempty (p :: ps))) with false. cbv iota.
      rewrite HF. cbn [bind].
      destruct (steps w) as [|s l]; [congruence|]. reflexivity.
Qed.

Lemma parse_by_segments_steps (text : str) (w : Workout) :
  parse text = Ok w ->
  Forall2 (fun part s => _parse_step part 0 = Ok s)
    (_split_workout (_normalize_text text)) (steps w).
Proof.
  intros H. pose proof (parse_ok text w H) as (l & Hl & _ & ->).
  now apply (parse_parts_steps _ 0).
Qed.

End BySegments.

(** ** The units of parsed steps *)

Section ParsedUnits.

Import Py Re RegexWorkoutParser.

Lemma str_eqb_eq (a b : str) : str_eqb a b = true -> a = b.
Proof. unfold str_eqb. now destruct (list_eq_dec ascii_dec a b). Qed.

Lemma str_in_In (x : str) (l : list str) : str_in x l = true -> In x l.
Proof.
  unfold str_in. intros H. apply existsb_exists in H as (y & Hy & E).
  apply str_eqb_eq in E. now subst.
Qed.

(** A unit that [_parse_duration] resolves is, in lower case, one of the
    spellings. *)
Lemma parse_duration_spelling (v : PrimFloat.float) (u : str)
    (d : DurationType * PrimFloat.float) :
  _parse_duration v u = Ok d -> In (lower u) unit_spellings.
Proof.
  unfold _parse_duration.
  repeat match goal with
         | |- context [if ?b then _ else _] =>
             let E := fresh "E" in destruct b eqn:E;
             [apply str_in_In in E; simpl in E; intros _;
              repeat (destruct E as [<-|E]; [simpl; tauto|]); contradiction|]
         end.
  discriminate.
Qed.

Lemma normal_lower (s : str) : forallb normal_char s = true -> lower s = s.
Proof.
  induction s as [|c s IH]; simpl; [reflexivity|].
  intros H. apply andb_true_iff in H as [Hc Hs]. rewrite (IH Hs).
  unfold normal_char in Hc. apply andb_true_iff in Hc as [Hc _].
  apply andb_true_iff in Hc as [Hc _]. apply Ascii.eqb_eq in Hc.
  now rewrite Hc.
Qed.

Lemma match_within (r : regex) (part : str) (m : groups) (n : nat) :
  forallb normal_char part = true ->
  Re.match_ true r part = Some m ->
  forallb normal_char (grp n m) = true.
Proof.
  intros Hp H. unfold Re.match_ in H.
  destruct (match_at true r None part) as [[k g]|] eqn:E; [|discriminate].
  injection H as <-.
  pose proof (match_at_within true normal_char r None part k g Hp E) as Hg.
  unfold grp. destruct (group n g) eqn:En; [|reflexivity].
  exact (group_within normal_char _ _ _ Hg En).
Qed.

(** The unit of a step is a lower-case spelling of the unit patterns, and
    the step has the duration kind and the magnitude that
    [_parse_duration] gives for it. *)
Definition unit_resolved (s : WorkoutStep) : Prop :=
  match duration_unit s with
  | Some u =>
      In u unit_spellings /\
      exists v, duration_value s = Some v /\
                _parse_duration v u = Ok (duration_type s, v)
  | None => duration_type s = DURATION_OPEN
  end.

Lemma measured_unit_resolved (st : StepType) (value : PrimFloat.float)
    (unit : str) (target_str : option str) (s : WorkoutStep) :
  forallb normal_char unit = true ->
  bind (_parse_duration value unit)
    (fun d => bind (_parse_target target_str)
                (fun t => leaf_step st (fst d) (snd d) unit t)) = Ok s ->
  unit_resolved s.
Proof.
  intros Hu H. apply bind_ok in H as ([kind v] & Hd & H).
  apply bind_ok in H as ([[k p] h] & Ht & H).
  apply parse_target_payloads in Ht as (Hp & Hh & _).
  apply leaf_step_built in H as (_ & _ & Hk & Hv & Hun); [|exact Hp|exact Hh].
  simpl in Hk, Hv. unfold unit_resolved. rewrite Hun, Hv, Hk.
  pose proof (parse_duration_spelling _ _ _ Hd) as Hs.
  rewrite (normal_lower unit Hu) in Hs. split; [exact Hs|].
  exists v. split; [reflexivity|].
  destruct (parse_duration_kind _ _ _ Hd) as [E _]. simpl in E. subst v.
  exact Hd.
Qed.

Lemma parse_step_units (part : str) (index : nat) (s : WorkoutStep) :
  forallb normal_char part = true ->
  _parse_step part index = Ok s ->
  unit_resolved s /\ forall c, In c (children s) -> unit_resolved c.
Proof.
  intros Hp. unfold _parse_step.
  destruct (Re.match_ true interval_pattern part) as [m|] eqn:E1.
  { unfold _parse_interval_step. intros H.
    apply bind_ok in H as (n & _ & H). apply bind_ok in H as (v & _ & H).
    cbv zeta in H.
    apply bind_ok in H as (d & Hd & H).
    apply bind_ok in H as (t & Ht & H).
    apply bind_ok in H as (work & Hw & H).
    assert (Hwork : unit_resolved work).
    { apply (measured_unit_resolved INTERVAL v (grp 3 m) (group 4 m)).
      - exact (match_within _ _ _ 3 Hp E1).
      - now rewrite Hd, Ht. }
    apply bind_ok in H as (l & Hl & H).
    unfold Step.new in H. apply checked_ok in H as [_ ->].
    split; [reflexivity|]. unfold children. cbn [repeat_steps].
    destruct (group 5 m) as [[|c r]|].
    - injection Hl as <-. now intros c [<-|[]].
    - apply bind_ok in Hl as (rv & _ & Hl).
      assert (Hrec : forall recovery,
                bind (_parse_duration rv (grp 6 m))
                  (fun rd => leaf_step RECOVERY (fst rd) (snd rd) (grp 6 m)
                               (TARGET_OPEN, None, None)) = Ok recovery ->
                unit_resolved recovery).
      { intros recovery Hr.
        apply (measured_unit_resolved RECOVERY rv (grp 6 m) None).
        - exact (match_within _ _ _ 6 Hp E1).
        - apply bind_ok in Hr as (rd & Hrd & Hr). now rewrite Hrd. }
      apply bind_ok in Hl as (rd & Hrd & Hl).
      apply bind_ok in Hl as (recovery & Hr & Hl). injection Hl as <-.
      intros x [<-|[<-|[]]]; [exact Hwork|].
      apply Hrec. now rewrite Hrd.
    - injection Hl as <-. now intros c [<-|[]]. }
  assert (Hleaf : forall st number unit target_str,
            forallb normal_char unit = true ->
            bind (to_float number)
              (fun value =>
                 bind (_parse_duration value unit)
                   (fun d => bind (_parse_target target_str)
                      (fun t => leaf_step st (fst d) (snd d) unit t))) = Ok s ->
            unit_resolved s /\ forall c, In c (children s) -> unit_resolved c).
  { intros st number unit target_str Hu H.
    apply bind_ok in H as (v & _ & H).
    pose proof H as H'. apply measured_step_built in H' as (_ & _ & Hr & _).
    split; [exact (measured_unit_resolved _ _ _ _ _ Hu H)|].
    unfold children. rewrite Hr. intros c []. }
  destruct (Re.match_ true simple_step_pattern part) as [m|] eqn:E2.
  { apply Hleaf. exact (match_within _ _ _ 2 Hp E2). }
  destruct (Re.match_ true target_first_pattern part) as [m|] eqn:E3.
  { apply Hleaf. exact (match_within _ _ _ 3 Hp E3). }
  destruct (Re.match_ true duration_only_pattern part) as [m|] eqn:E4.
  { apply Hleaf. exact (match_within _ _ _ 2 Hp E4). }
  destruct (Re.match_ true open_step_pattern part) as [m|]; [|discriminate].
  unfold _parse_open_step. cbv zeta. intros H.
  unfold Step.new in H. apply checked_ok in H as [_ ->].
  split; [reflexivity|]. intros c [].
Qed.

Lemma split_within (ok : ascii -> bool) (sep : ascii) (s : str) :
  forallb ok s = true -> Forall (fun p => forallb ok p = true) (split sep s).
Proof.
  induction s as [|c s IH]; simpl; intros H; [repeat constructor|].
  apply andb_true_iff in H as [Hc Hs]. specialize (IH Hs).
  destruct (Ascii.eqb c sep); [constructor; [reflexivity|exact IH]|].
  destruct (split sep s) as [|p ps]; [repeat constructor; simpl; now rewrite Hc|].
  inversion IH as [|? ? Hp Hps]; subst. constructor; [|exact Hps].
  simpl. now rewrite Hc, Hp.
Qed.

Lemma strip_within (ok : ascii -> bool) (s : str) :
  forallb ok s = true -> forallb ok (strip s) = true.
Proof.
  intros H. destruct (strip_decompose s) as (w & e & Hs).
  rewrite Hs, !forallb_app in H.
  apply andb_true_iff in H as [_ H]. now apply andb_true_iff in H as [H _].
Qed.

Lemma segments_normal (text : str) :
  Forall (fun seg => forallb normal_char seg = true)
    (_split_workout (_normalize_text text)).
Proof.
  assert (Hn : forallb normal_char (_normalize_text text) = true).
  { change (_normalize_text text)
      with (fold_left apply_rewrite (tl normalize_rules)
              (canonical_separators text)).
    apply rewrites_normal; [repeat constructor|].
    rewrite canonical_separators_eq. apply collapse_normal.
    apply lowered_strip, lowered_lower. }
  apply Forall_forall. intros seg H. unfold _split_workout in H.
  apply in_map_iff in H as (p & <- & Hp). apply filter_In in Hp as [Hp _].
  apply strip_within.
  pose proof (split_within normal_char "," _ Hn) as HF.
  rewrite Forall_forall in HF. exact (HF p Hp).
Qed.

(** In a workout that [parse] returns, every step and every child of a
    Repeat either has no unit and an Open duration, or has as its unit one
    of the lower-case spellings of the unit patterns, together with the
    duration kind that [_parse_duration] assigns to that unit and the
    magnitude that was typed. *)
Theorem parsed_units (text : str) (w : Workout)
    (H : parse text = Ok w) :
  forall s, In s (steps w) ->
  unit_resolved s /\ forall c, In c (children s) -> unit_resolved c.
Proof.
  apply parse_by_segments_steps in H.
  pose proof (segments_normal text) as Hn.
  revert H Hn. generalize (_split_workout (_normalize_text text)).
  generalize (steps w).
  intros l parts HF. induction HF as [|part s parts l Hs _ IH];
    intros Hn x Hx; [destruct Hx|].
  inversion Hn as [|? ? Hp Hps]; subst.
  destruct Hx as [<-|Hx]; [|exact (IH Hps x Hx)].
  exact (parse_step_units _ _ _ Hp Hs).
Qed.

Lemma parsed_units_witness :
  exists w, parse "2kilometer warmup" = Ok w /\
  forall s, In s (steps w) -> unit_resolved s.
Proof.
  destruct (parse "2kilometer warmup") as [w|e] eqn:E.
  - exists w. split; [reflexivity|]. intros s Hs.
    now destruct (parsed_units _ w E s Hs).
  - exfalso. vm_compute in E. discriminate E.
Defined.

End ParsedUnits.
